(** * splunk-hec-go: the event submission pipeline of [hec.Client]

    A shallow embedding of [errors.go] and of the client of [hec.go] (the
    revision with [maxLength]: [WriteEvent], [WriteBatch], [WriteRaw] and
    [write]), and the properties of size-bounded chunking and of the bounded,
    code-aware retry.

    Go's [int] is read as [Z].  The only arithmetic of the code is on lengths
    of buffers that are in memory together ([buffer.Len()+len(data)],
    [buf.Len()+len(line)+1]) and on the retry counter, which stays at most
    [hec.retries]: none of it can leave the 64-bit range, so no wrap-around
    is written. *)

From Stdlib Require Import List ZArith Lia Bool Sorted.
From Stdlib Require Import Strings.String Strings.Byte.
From Stdlib Require Import DecimalString.
Import ListNotations.
Open Scope Z_scope.

(** [len(b)] of a byte slice or buffer. *)
Definition len (b : list byte) : Z := Z.of_nat (List.length b).

(** ** errors.go *)

(** [Response] is the response message of HEC. *)
Record Response := { Text : string; Code : Z }.

Definition StatusSuccess : Z := 0.
Definition StatusTokenDisabled : Z := 1.
Definition StatusTokenRequired : Z := 2.
Definition StatusInvalidAuthorization : Z := 3.
Definition StatusInvalidToken : Z := 4.
Definition StatusNoData : Z := 5.
Definition StatusInvalidDataFormat : Z := 6.
Definition StatusIncorrectIndex : Z := 7.
Definition StatusInternalServerError : Z := 8.
Definition StatusServerBusy : Z := 9.
Definition StatusChannelMissing : Z := 10.
Definition StatusInvalidChannel : Z := 11.
Definition StatusEventFieldRequired : Z := 12.
Definition StatusEventFieldBlank : Z := 13.
Definition StatusAckDisabled : Z := 14.

Definition retriable (code : Z) : bool :=
  (code =? StatusServerBusy) || (code =? StatusInternalServerError).

(** The values of Go's [error] that the client returns: an error of the
    standard library (net/http, net/url, io), a [Response], or an
    [ErrEventTooLong] with its [indexes] (the nil slice is [[]]). *)
Inductive error : Type :=
| GoError (msg : string)
| ResponseError (res : Response)
| ErrEventTooLong (indexes : list Z).

(** [GetIndexes] of [ErrEventTooLong]. *)
Definition GetIndexes (e : error) : list Z :=
  match e with
  | ErrEventTooLong indexes => indexes
  | _ => []
  end.

(** ** The HTTP collaborator

    A request as [write] builds it, the three ways an attempt ends, and the
    world: the trace of what the client has done so far.  [Do] records the
    value of the local counter [retries] at the attempt. *)
Record Request := {
  URL : string;
  Connection : option string;
  Authorization : string;
  Body : list byte
}.

Inductive Reply : Type :=
| DoFails (err : string)                        (* httpClient.Do: err *)
| ReadAllFails (StatusCode : Z) (err : string)  (* ioutil.ReadAll: err *)
| Replies (StatusCode : Z) (body : list byte).

Inductive Action : Type :=
| Do (retries : Z) (req : Request)
| Sleep (d : Z).

Definition World := list Action.

Definition StatusOK : Z := 200.

(** [1 * time.Second], in nanoseconds. *)
Definition retryWaitTime : Z := 1000000000.

Definition defaultMaxContentLength : Z := 1000000.

(** ** What the client takes from elsewhere

    [Event], its method [empty] and its JSON encoding are declared in
    another file of the package, and so is [epochTime] ([time_Time] is Go's
    time.Time); encoding/json and net/http are libraries.  They are
    parameters of the development.  [json_Marshal] is
    [data, _ := json.Marshal(event)]: the bytes that are left when the error
    is dropped.  [json_Unmarshal body res] is [res] after
    [json.Unmarshal(body, &res)], the error dropped as well.
    [http_NewRequest_err url] is the error of
    [http.NewRequest(http.MethodPost, url, _)], if any. *)
Class Platform := {
  Event : Type;
  empty : Event -> bool;
  json_Marshal : Event -> list byte;
  json_Unmarshal : list byte -> Response -> Response;
  time_Time : Type;
  epochTime : time_Time -> string;
  http_NewRequest_err : string -> option string
}.

(** ** bufio.Scanner over [bufio.ScanLines]

    [WriteRaw] reads its input through [bufio.NewScanner(reader)], a library.
    The reader is taken to deliver its bytes without an I/O error, and to
    signal the end of the input by a read of its own, as strings.Reader,
    bytes.Reader and os.File do.  The scanner splits the bytes at ['\n'],
    drops one trailing ['\r'] of a line ([dropCR]) and returns a last line
    that has no terminator when it is not empty.  Its buffer grows to
    [MaxScanTokenSize] bytes and no further: by the package documentation
    scanning stops unrecoverably at a token too large to fit in the buffer,
    and the actual maximum token size may be smaller than
    [MaxScanTokenSize], as the buffer may need to include a newline.  So
    once 64 KiB of a line have been read and the line has not ended, [Scan]
    returns false for good (the error is ErrTooLong, which only
    [scanner.Err()] tells from the end of the input).  [Scanner_tokens] is
    the sequence of tokens that the successive calls of [scanner.Scan()]
    make available in [scanner.Bytes()]. *)
Module bufio.

Definition MaxScanTokenSize : Z := 64 * 1024.

Definition dropCR (data : list byte) : list byte :=
  match rev_append data [] with
  | c :: before => if Byte.eqb c "013" then rev_append before [] else data
  | [] => data
  end.

(** The tokens still to come.  [line] holds the bytes of the current line
    read so far, last byte first, and [n] is their number.  At a line feed
    the line is the token (ScanLines: [dropCR(data[0:i])]).  At the end of
    the input what is left of a line is the last token ([dropCR(data)]),
    and nothing is when nothing is left.  Any other byte joins the line,
    unless it would fill the buffer: there scanning ends. *)
Fixpoint Scan_from (data : list byte) (line : list byte) (n : Z)
    : list (list byte) :=
  match data with
  | [] =>
    match line with
    | [] => []
    | _ :: _ => [dropCR (rev_append line [])]
    end
  | b :: data' =>
    if Byte.eqb b "010"
    then dropCR (rev_append line []) :: Scan_from data' [] 0
    else if n + 1 <? MaxScanTokenSize
         then Scan_from data' (b :: line) (n + 1)
         else []
  end.

Definition Scanner_tokens (reader : list byte) : list (list byte) :=
  Scan_from reader [] 0.

End bufio.

(** ** hec.go: the client *)

(** [httpClient] answers an attempt from the trace so far and the request. *)
Record Client := {
  httpClient : World -> Request -> Reply;
  serverURL : string;
  token : string;
  keepAlive : bool;
  channel : string;
  retries : Z;
  maxLength : Z
}.

(** [NewClient]; the channel is a fresh UUID there, a parameter here. *)
Definition NewClient (http : World -> Request -> Reply)
    (serverURL token uuid : string) : Client :=
  {| httpClient := http;
     serverURL := serverURL;
     token := token;
     keepAlive := true;
     channel := uuid;
     retries := 2;
     maxLength := defaultMaxContentLength |}.

Definition SetMaxRetry (hec : Client) (n : Z) : Client :=
  {| httpClient := httpClient hec; serverURL := serverURL hec;
     token := token hec; keepAlive := keepAlive hec; channel := channel hec;
     retries := n; maxLength := maxLength hec |}.

Definition SetMaxContentLength (hec : Client) (size : Z) : Client :=
  {| httpClient := httpClient hec; serverURL := serverURL hec;
     token := token hec; keepAlive := keepAlive hec; channel := channel hec;
     retries := retries hec; maxLength := size |}.

Record EventMetadata {P : Platform} := {
  Host : option string;
  Index : option string;
  Source : option string;
  SourceType : option string;
  Time : option time_Time
}.

Section Client.
Context {P : Platform}.

Definition responseFrom (body : list byte) : Response :=
  json_Unmarshal body {| Text := ""; Code := 0 |}.

Definition newRequest (hec : Client) (endpoint : string) (data : list byte)
    : Request :=
  {| URL := (serverURL hec ++ endpoint)%string;
     Connection := if keepAlive hec then Some "keep-alive"%string else None;
     Authorization := ("Splunk " ++ token hec)%string;
     Body := data |}.

(** The body of [write] from the label [RETRY] on.  [count] is the local
    [retries].  The jump back is taken at most [hec.retries - count] times,
    which is what [fuel] counts: [write] starts it with enough
    ([write_RETRY_fuel]). *)
Fixpoint write_RETRY (hec : Client) (endpoint : string) (data : list byte)
    (fuel : nat) (count : Z) (w : World) : option error * World :=
  match http_NewRequest_err (serverURL hec ++ endpoint)%string with
  | Some err => (Some (GoError err), w)
  | None =>
    let req := newRequest hec endpoint data in
    let w1 := w ++ [Do count req] in
    match httpClient hec w req with
    | DoFails err => (Some (GoError err), w1)
    | ReadAllFails _ err => (Some (GoError err), w1)
    | Replies StatusCode body =>
      if negb (StatusCode =? StatusOK) then
        let response := responseFrom body in
        if retriable (Code response) && (count <? retries hec) then
          match fuel with
          | S fuel' =>
            write_RETRY hec endpoint data fuel' (count + 1)
              (w1 ++ [Sleep retryWaitTime])
          | O => (Some (ResponseError response), w1)
          end
        else (Some (ResponseError response), w1)
      else (None, w1)
    end
  end.

Definition write (hec : Client) (endpoint : string) (data : list byte)
    (w : World) : option error * World :=
  write_RETRY hec endpoint data (Z.to_nat (retries hec)) 0 w.

Definition WriteEvent (hec : Client) (event : Event) (w : World)
    : option error * World :=
  if empty event then (None, w)
  else
    let endpoint := ("/services/collector?channel=" ++ channel hec)%string in
    let data := json_Marshal event in
    if len data >? maxLength hec then (Some (ErrEventTooLong []), w)
    else write hec endpoint data w.

(** The [for index, event := range events] loop of [WriteBatch] from
    position [index] on, followed by what comes after the loop. *)
Fixpoint WriteBatch_range (hec : Client) (endpoint : string)
    (events : list Event) (index : Z) (buffer : list byte)
    (tooLongs : list Z) (w : World) : option error * World :=
  match events with
  | [] =>
    match (if len buffer >? 0 then write hec endpoint buffer w
           else (None, w)) with
    | (Some err, w') => (Some err, w')
    | (None, w') =>
      if Z.of_nat (List.length tooLongs) >? 0
      then (Some (ErrEventTooLong tooLongs), w')
      else (None, w')
    end
  | event :: rest =>
    if empty event then
      WriteBatch_range hec endpoint rest (index + 1) buffer tooLongs w
    else
      let data := json_Marshal event in
      if len data >? maxLength hec then
        WriteBatch_range hec endpoint rest (index + 1) buffer
          (tooLongs ++ [index]) w
      else if len buffer + len data >? maxLength hec then
        match write hec endpoint buffer w with
        | (Some err, w') => (Some err, w')
        | (None, w') =>
          WriteBatch_range hec endpoint rest (index + 1) ([] ++ data)
            tooLongs w'
        end
      else
        WriteBatch_range hec endpoint rest (index + 1) (buffer ++ data)
          tooLongs w
  end.

Definition WriteBatch (hec : Client) (events : list Event) (w : World)
    : option error * World :=
  if Z.of_nat (List.length events) =? 0 then (None, w)
  else
    let endpoint := ("/services/collector?channel=" ++ channel hec)%string in
    WriteBatch_range hec endpoint events 0 [] [] w.

Definition rawHecEndpoint (channel : string) (metadata : option EventMetadata)
    : string :=
  let buffer := ("/services/collector/raw?channel=" ++ channel)%string in
  match metadata with
  | None => buffer
  | Some metadata =>
    let add (key : string) (v : option string) (buffer : string) :=
      match v with
      | Some s => (buffer ++ key ++ s)%string
      | None => buffer
      end in
    let buffer := add "&host="%string (Host metadata) buffer in
    let buffer := add "&index="%string (Index metadata) buffer in
    let buffer := add "&source="%string (Source metadata) buffer in
    let buffer := add "&sourcetype="%string (SourceType metadata) buffer in
    add "&time="%string (option_map epochTime (Time metadata)) buffer
  end.

(** The [for lineNo := 1; scanner.Scan(); lineNo++] loop of [WriteRaw] over
    the tokens that the scanner still has, followed by what comes after the
    loop.  [line] is [scanner.Bytes()]. *)
Fixpoint WriteRaw_scan (hec : Client) (endpoint : string)
    (tokens : list (list byte)) (lineNo : Z) (buf : list byte)
    (tooLongs : list Z) (w : World) : option error * World :=
  match tokens with
  | [] =>
    match (if len buf >? 0 then write hec endpoint buf w
           else (None, w)) with
    | (Some err, w') => (Some err, w')
    | (None, w') =>
      if Z.of_nat (List.length tooLongs) >? 0
      then (Some (ErrEventTooLong tooLongs), w')
      else (None, w')
    end
  | line :: rest =>
    if len line >? maxLength hec then
      WriteRaw_scan hec endpoint rest (lineNo + 1) buf
        (tooLongs ++ [lineNo]) w
    else if len buf + len line + 1 >? maxLength hec then
      match write hec endpoint buf w with
      | (Some err, w') => (Some err, w')
      | (None, w') =>
        WriteRaw_scan hec endpoint rest (lineNo + 1)
          (([] ++ line) ++ ["010"%byte]) tooLongs w'
      end
    else
      WriteRaw_scan hec endpoint rest (lineNo + 1)
        ((buf ++ line) ++ ["010"%byte]) tooLongs w
  end.

Definition WriteRaw (hec : Client) (reader : list byte)
    (metadata : option EventMetadata) (w : World) : option error * World :=
  let endpoint := rawHecEndpoint (channel hec) metadata in
  WriteRaw_scan hec endpoint (bufio.Scanner_tokens reader) 1 [] [] w.

End Client.

(** ** Reading the trace *)

(** The bodies of all attempts, retries included: every request body that
    went on the wire. *)
Fixpoint attempts (w : World) : list (list byte) :=
  match w with
  | [] => []
  | Do _ req :: w' => Body req :: attempts w'
  | Sleep _ :: w' => attempts w'
  end.

(** The bodies of the first attempts (counter at zero): each transmitted
    body once, however often it was retried. *)
Fixpoint transmitted (w : World) : list (list byte) :=
  match w with
  | [] => []
  | Do count req :: w' =>
    if count =? 0 then Body req :: transmitted w' else transmitted w'
  | Sleep _ :: w' => transmitted w'
  end.

(** The fixed-interval waits. *)
Fixpoint waits (w : World) : list Z :=
  match w with
  | [] => []
  | Do _ _ :: w' => waits w'
  | Sleep d :: w' => d :: waits w'
  end.

(** What a call added to the trace [w] it started from. *)
Definition since (w w' : World) : World := skipn (List.length w) w'.

(** The oversize list the caller gets to see: the indexes of an
    [ErrEventTooLong], none on success, and nothing at all when the call
    returns another error. *)
Definition reported (result : option error) : option (list Z) :=
  match result with
  | None => Some []
  | Some (ErrEventTooLong indexes) => Some indexes
  | Some _ => None
  end.

Definition total_len (bodies : list (list byte)) : Z :=
  fold_right (fun b n => len b + n) 0 bodies.

(** [l] lists, in strictly ascending order, exactly the positions of the
    elements of [xs] that [select] holds of, the first element being at
    position [first]. *)
Definition lists_positions {A : Type} (select : A -> Prop) (first : Z)
    (xs : list A) (l : list Z) : Prop :=
  (forall i : Z,
      In i l <->
      exists (k : nat) (x : A),
        nth_error xs k = Some x /\ select x /\ i = first + Z.of_nat k)
  /\ StronglySorted Z.lt l.

(** A line followed by the line terminator. *)
Definition terminated (line : list byte) : list byte :=
  line ++ ["010"%byte].

(** The lines of an input as they stand in it: the runs of bytes between
    line feeds, the line feed excluded and nothing else dropped, a last run
    without line feed included when it is not empty.  [line] holds the
    bytes of the current line, last byte first. *)
Fixpoint split_lines (data line : list byte) : list (list byte) :=
  match data with
  | [] =>
    match line with
    | [] => []
    | _ :: _ => [rev line]
    end
  | b :: data' =>
    if Byte.eqb b "010" then rev line :: split_lines data' []
    else split_lines data' (b :: line)
  end.

(** A line the scanner hands over as it stands: it holds no line feed and
    no carriage return, and it fits the scanner's buffer. *)
Definition plain (line : list byte) : Prop :=
  Forall (fun b => b <> "010"%byte /\ b <> "013"%byte) line
  /\ len line < bufio.MaxScanTokenSize.

(** ** The chunking discipline as the specification words it

    Sections 4.2 and 4.3 describe a chunker that is separate from the
    transmission: each input item is dropped (an empty record), set aside as
    oversize, or contributes a piece of bytes; pieces are gathered in a
    buffer that is emitted before the piece that would make it exceed
    [maxLength] and at the end when it is not empty.  The emitted bodies are
    then transmitted in order until one fails. *)
Inductive Item : Type :=
| Dropped
| Oversize
| Fits (piece : list byte).

Fixpoint chunks (maxLength : Z) (items : list Item) (buffer : list byte)
    : list (list byte) :=
  match items with
  | [] => if len buffer >? 0 then [buffer] else []
  | Fits piece :: rest =>
    if len buffer + len piece >? maxLength
    then buffer :: chunks maxLength rest piece
    else chunks maxLength rest (buffer ++ piece)
  | _ :: rest => chunks maxLength rest buffer
  end.

Fixpoint oversize (items : list Item) (index : Z) : list Z :=
  match items with
  | [] => []
  | Oversize :: rest => index :: oversize rest (index + 1)
  | _ :: rest => oversize rest (index + 1)
  end.

Fixpoint pieces (items : list Item) : list (list byte) :=
  match items with
  | [] => []
  | Fits piece :: rest => piece :: pieces rest
  | _ :: rest => pieces rest
  end.

Section Chunker.
Context {P : Platform}.

Definition record_item (maxLength : Z) (event : Event) : Item :=
  if empty event then Dropped
  else if len (json_Marshal event) >? maxLength then Oversize
  else Fits (json_Marshal event).

Definition line_item (maxLength : Z) (line : list byte) : Item :=
  if len line >? maxLength then Oversize
  else Fits (line ++ ["010"%byte]).

(** Transmission of the emitted bodies in emission order, stopping at the
    first one that fails. *)
Fixpoint deliver (hec : Client) (endpoint : string)
    (bodies : list (list byte)) (w : World) : option error * World :=
  match bodies with
  | [] => (None, w)
  | body :: rest =>
    match write hec endpoint body w with
    | (Some err, w') => (Some err, w')
    | (None, w') => deliver hec endpoint rest w'
    end
  end.

(** A whole submission: the bodies, then the oversize list if there is
    one. *)
Definition submit (hec : Client) (endpoint : string)
    (bodies : list (list byte)) (over : list Z) (w : World)
    : option error * World :=
  match deliver hec endpoint bodies w with
  | (Some err, w') => (Some err, w')
  | (None, w') =>
    match over with
    | [] => (None, w')
    | _ :: _ => (Some (ErrEventTooLong over), w')
    end
  end.

End Chunker.

(** ** A test double

    Records with an optional host and a payload, encoded as the JSON object
    of their set fields; a record is empty when it names no host and its
    payload is blank.  A response body is one byte, the code.  Every URL is
    well formed. *)
Module Double.

Record TestEvent := { host : option string; payload : string }.

Definition quote : list byte := ["034"%byte].

Definition field (key value : string) : list byte :=
  quote ++ list_byte_of_string key ++ quote ++ list_byte_of_string ":"
  ++ quote ++ list_byte_of_string value ++ quote.

Definition marshal (e : TestEvent) : list byte :=
  list_byte_of_string "{"
  ++ match host e with
     | Some h => field "host" h ++ list_byte_of_string ","
     | None => []
     end
  ++ field "event" (payload e) ++ list_byte_of_string "}".

Definition unmarshal (body : list byte) (res : Response) : Response :=
  match body with
  | [b] => {| Text := Text res; Code := Z.of_N (Byte.to_N b) |}
  | _ => res
  end.

#[export] Instance platform : Platform :=
  {| Event := TestEvent;
     empty := fun e =>
       match host e with
       | None => String.eqb (payload e) ""
       | Some _ => false
       end;
     json_Marshal := marshal;
     json_Unmarshal := unmarshal;
     time_Time := Z;
     epochTime := fun _ => "0"%string;
     http_NewRequest_err := fun _ => None |}.

Definition event (s : string) : TestEvent := {| host := None; payload := s |}.

(** Transports: one that accepts everything, one that refuses the
    connection, and one that answers the attempts in turn from a script of
    (status, code) pairs and accepts what comes after. *)
Definition accept : World -> Request -> Reply :=
  fun _ _ => Replies 200 [].

Definition refuse : World -> Request -> Reply :=
  fun _ _ => DoFails "connection refused".

Definition scripted (script : list (Z * Z)) : World -> Request -> Reply :=
  fun w _ =>
    match nth_error script (List.length (attempts w)) with
    | Some (status, code) =>
      match Byte.of_N (Z.to_N code) with
      | Some b => Replies status [b]
      | None => Replies status []
      end
    | None => Replies 200 []
    end.

Definition client (http : World -> Request -> Reply) (maxLength : Z)
    : Client :=
  SetMaxContentLength
    (NewClient http "http://localhost:8088"
       "00000000-0000-0000-0000-000000000000" "channel")
    maxLength.

Definition lineA : list byte := list_byte_of_string "This is line A".
Definition lineB : list byte := list_byte_of_string "This is line B".

(** Two lines of 14 bytes, the second without a terminator. *)
Definition text : list byte := lineA ++ ["010"%byte] ++ lineB.

(** A first line of 70000 bytes, then a short one. *)
Definition long_text : list byte :=
  repeat "a"%byte (Z.to_nat 70000) ++ ["010"%byte]
  ++ list_byte_of_string "ok" ++ ["010"%byte].

End Double.

(** ** errors.go: the messages *)

(** [strconv.Itoa]: the decimal digits, after a minus sign for a negative
    number. *)
Definition strconv_Itoa (n : Z) : string :=
  NilZero.string_of_int (Z.to_int n).

(** [strings.Join(elems, sep)]. *)
Definition strings_Join (elems : list string) (sep : string) : string :=
  String.concat sep elems.

(** The method [Error]: of a [Response] its text; of an [ErrEventTooLong]
    one message when [indexes] is nil and otherwise the message that lists
    the indexes; of an error of the library its own message. *)
Definition Error (e : error) : string :=
  match e with
  | GoError msg => msg
  | ResponseError res => Text res
  | ErrEventTooLong [] => "Event length is too long"
  | ErrEventTooLong indexes =>
    let ns := map strconv_Itoa indexes in
    let numbers := strings_Join ns ", " in
    ("Events (" ++ numbers ++ ") length are too long")%string
  end.

(** ** hec.go: the other setters *)

Definition SetHTTPClient (hec : Client) (client : World -> Request -> Reply)
    : Client :=
  {| httpClient := client; serverURL := serverURL hec;
     token := token hec; keepAlive := keepAlive hec; channel := channel hec;
     retries := retries hec; maxLength := maxLength hec |}.

Definition SetKeepAlive (hec : Client) (enable : bool) : Client :=
  {| httpClient := httpClient hec; serverURL := serverURL hec;
     token := token hec; keepAlive := enable; channel := channel hec;
     retries := retries hec; maxLength := maxLength hec |}.

Definition SetChannel (hec : Client) (channel' : string) : Client :=
  {| httpClient := httpClient hec; serverURL := serverURL hec;
     token := token hec; keepAlive := keepAlive hec; channel := channel';
     retries := retries hec; maxLength := maxLength hec |}.

(** ** Reading the trace of one [write] *)

(** The trace of a body that needed [more] retries after the attempt at
    the counter [count]: attempts at consecutive counters with a wait of
    [retryWaitTime] between them. *)
Fixpoint retry_trace (req : Request) (count : Z) (more : nat) : World :=
  match more with
  | O => [Do count req]
  | S more' =>
    Do count req :: Sleep retryWaitTime
      :: retry_trace req (count + 1) more'
  end.

(** ** hec.go: the earlier client, without [maxLength]

    The revision of the client before the content length was bounded: the
    same [write], and submissions that hand everything to it in one body.
    Its struct has no field [maxLength]; the record is used with that field
    left alone. *)
Module Earlier.
Section Client.
Context {P : Platform}.

Definition WriteEvent (hec : Client) (event : Event) (w : World)
    : option error * World :=
  let endpoint := ("/services/collector?channel=" ++ channel hec)%string in
  let data := json_Marshal event in
  write hec endpoint data w.

Definition WriteBatch (hec : Client) (events : list Event) (w : World)
    : option error * World :=
  let endpoint := ("/services/collector?channel=" ++ channel hec)%string in
  let buffer :=
    fold_left (fun buffer event => buffer ++ json_Marshal event) events [] in
  write hec endpoint buffer w.

Definition WriteRaw (hec : Client) (events : list byte)
    (metadata : option EventMetadata) (w : World) : option error * World :=
  let endpoint := rawHecEndpoint (channel hec) metadata in
  write hec endpoint events w.

End Client.
End Earlier.

(** ** The cluster of clients

    [Cluster] goes with the earlier client, whose [WriteRaw] takes the
    bytes.  The mutex guards the setters only; calls are taken one at a
    time here.  [NewCluster] names five fields of each client: the others
    have Go's zero value.  [pick] takes the number that [rand.Int()]
    returns, which is not negative; on a cluster without clients the
    remainder by zero panics, which is [None]. *)
Module cluster.

Record Cluster := { clients : list Client }.

Definition NewCluster (http : World -> Request -> Reply)
    (serverURLs : list string) (token uuid : string) : Cluster :=
  {| clients :=
       map (fun serverURL =>
              {| httpClient := http;
                 serverURL := serverURL;
                 token := token;
                 keepAlive := true;
                 channel := uuid;
                 retries := 0;
                 maxLength := 0 |})
         serverURLs |}.

Definition SetHTTPClient (c : Cluster) (httpClient : World -> Request -> Reply)
    : Cluster :=
  {| clients := map (fun client => SetHTTPClient client httpClient)
                  (clients c) |}.

Definition SetKeepAlive (c : Cluster) (enable : bool) : Cluster :=
  {| clients := map (fun client => SetKeepAlive client enable) (clients c) |}.

Definition SetChannel (c : Cluster) (channel : string) : Cluster :=
  {| clients := map (fun client => SetChannel client channel) (clients c) |}.

Definition pick (rand_Int : Z) (clients : list Client) : option Client :=
  if Z.of_nat (List.length clients) =? 0 then None
  else nth_error clients
         (Z.to_nat (Z.rem rand_Int (Z.of_nat (List.length clients)))).

Section Writes.
Context {P : Platform}.

Definition WriteEvent (c : Cluster) (rand_Int : Z) (event : Event)
    (w : World) : option (option error * World) :=
  match pick rand_Int (clients c) with
  | Some client => Some (Earlier.WriteEvent client event w)
  | None => None
  end.

Definition WriteBatch (c : Cluster) (rand_Int : Z) (events : list Event)
    (w : World) : option (option error * World) :=
  match pick rand_Int (clients c) with
  | Some client => Some (Earlier.WriteBatch client events w)
  | None => None
  end.

Definition WriteRaw (c : Cluster) (rand_Int : Z) (events : list byte)
    (metadata : option EventMetadata) (w : World)
    : option (option error * World) :=
  match pick rand_Int (clients c) with
  | Some client => Some (Earlier.WriteRaw client events metadata w)
  | None => None
  end.

End Writes.
End cluster.

Section Verdict.
Context {P : Platform}.

(** What [write] makes of the reply to an attempt that it does not
    retry. *)
Definition verdict (reply : Reply) : option error :=
  match reply with
  | DoFails err => Some (GoError err)
  | ReadAllFails _ err => Some (GoError err)
  | Replies StatusCode body =>
    if StatusCode =? StatusOK then None
    else Some (ResponseError (responseFrom body))
  end.

End Verdict.

(** No two consecutive bodies would have fitted in one: together they are
    longer than [maxLength]. *)
Fixpoint no_two_fit (maxLength : Z) (bodies : list (list byte)) : Prop :=
  match bodies with
  | body :: (next :: _) as rest =>
    len body + len next > maxLength /\ no_two_fit maxLength rest
  | _ => True
  end.

(** ** More of the test double

    A transport that is always busy, a text with the line endings of
    Windows, a long run of bytes without a line feed, and metadata that
    names a source. *)
Module Cases.

Definition busy : World -> Request -> Reply :=
  fun _ _ => Replies 503 ["009"%byte].

Definition crlf (line : list byte) : list byte :=
  line ++ ["013"%byte; "010"%byte].


Definition long_run : list byte := repeat "a"%byte (Z.to_nat 70000).

Definition from_test : EventMetadata (P := Double.platform) :=
  {| Host := None; Index := None; Source := Some "test-hec-raw"%string;
     SourceType := None; Time := None |}.

Definition unset : EventMetadata (P := Double.platform) :=
  {| Host := None; Index := None; Source := None; SourceType := None;
     Time := None |}.

End Cases.

(** * Properties *)

(** ** Facts about the trace *)

Lemma attempts_app (w1 w2 : World) :
  attempts (w1 ++ w2) = attempts w1 ++ attempts w2.
Proof.
  induction w1 as [|[count req|d] w1 IH]; simpl; [reflexivity| |assumption].
  now rewrite IH.
Qed.

Lemma transmitted_app (w1 w2 : World) :
  transmitted (w1 ++ w2) = transmitted w1 ++ transmitted w2.
Proof.
  induction w1 as [|[count req|d] w1 IH]; simpl; [reflexivity| |assumption].
  destruct (count =? 0); simpl; now rewrite IH.
Qed.

Lemma waits_app (w1 w2 : World) : waits (w1 ++ w2) = waits w1 ++ waits w2.
Proof.
  induction w1 as [|[count req|d] w1 IH]; simpl; [reflexivity|assumption|].
  now rewrite IH.
Qed.

Lemma since_app (w acts : World) : since w (w ++ acts) = acts.
Proof.
  unfold since. induction w as [|a w IH]; simpl; [reflexivity|assumption].
Qed.

Lemma total_len_app (xs ys : list (list byte)) :
  total_len (xs ++ ys) = total_len xs + total_len ys.
Proof.
  unfold total_len. induction xs as [|x xs IH]; simpl; [reflexivity|].
  rewrite IH. lia.
Qed.

Lemma len_app (a b : list byte) : len (a ++ b) = len a + len b.
Proof. unfold len. rewrite length_app. lia. Qed.

Lemma len_nonneg (a : list byte) : 0 <= len a.
Proof. unfold len. lia. Qed.

Lemma total_len_concat (xs : list (list byte)) :
  total_len xs = len (List.concat xs).
Proof.
  induction xs as [|x xs IH]; simpl; [reflexivity|].
  rewrite len_app, <- IH. reflexivity.
Qed.

Section WriteFacts.
Context {P : Platform}.
Variables (hec : Client) (endpoint : string) (data : list byte).

(** One round of [write_RETRY], whatever the fuel. *)
Lemma write_RETRY_eq (fuel : nat) (count : Z) (w : World) :
  write_RETRY hec endpoint data fuel count w =
  match http_NewRequest_err (serverURL hec ++ endpoint)%string with
  | Some err => (Some (GoError err), w)
  | None =>
    let req := newRequest hec endpoint data in
    let w1 := w ++ [Do count req] in
    match httpClient hec w req with
    | DoFails err => (Some (GoError err), w1)
    | ReadAllFails _ err => (Some (GoError err), w1)
    | Replies StatusCode body =>
      if negb (StatusCode =? StatusOK) then
        let response := responseFrom body in
        if retriable (Code response) && (count <? retries hec) then
          match fuel with
          | S fuel' =>
            write_RETRY hec endpoint data fuel' (count + 1)
              (w1 ++ [Sleep retryWaitTime])
          | O => (Some (ResponseError response), w1)
          end
        else (Some (ResponseError response), w1)
      else (None, w1)
    end
  end.
Proof. destruct fuel; reflexivity. Qed.

(** The fuel [write] starts with is never used up: more of it changes
    nothing. *)
Lemma write_RETRY_fuel (fuel : nat) :
  forall (count : Z) (w : World),
    (Z.to_nat (retries hec - count) <= fuel)%nat ->
    write_RETRY hec endpoint data fuel count w =
    write_RETRY hec endpoint data (Z.to_nat (retries hec - count)) count w.
Proof.
  induction fuel as [|fuel IH]; intros count w Hfuel.
  - replace (Z.to_nat (retries hec - count)) with 0%nat by lia. reflexivity.
  - rewrite (write_RETRY_eq (S fuel)), (write_RETRY_eq (Z.to_nat _)).
    destruct (http_NewRequest_err _); [reflexivity|]. cbv zeta.
    destruct (httpClient hec w _) as [err|code err|code body];
      try reflexivity.
    destruct (negb (code =? StatusOK)); [|reflexivity].
    destruct (retriable _); simpl; [|reflexivity].
    destruct (count <? retries hec) eqn:Hlt; [|reflexivity].
    apply Z.ltb_lt in Hlt.
    replace (Z.to_nat (retries hec - count))
      with (S (Z.to_nat (retries hec - (count + 1)))) by lia.
    apply IH. lia.
Qed.

(** What a call of [write_RETRY] adds to the trace: attempts with the body
    [data] only, the first of them with the counter it was entered with. *)
Lemma write_RETRY_trace (fuel : nat) :
  forall (count : Z) (w : World), 0 <= count ->
    exists acts : World,
      snd (write_RETRY hec endpoint data fuel count w) = w ++ acts
      /\ Forall (eq data) (attempts acts)
      /\ Forall (eq retryWaitTime) (waits acts)
      /\ match http_NewRequest_err (serverURL hec ++ endpoint)%string with
         | Some err =>
           acts = []
           /\ fst (write_RETRY hec endpoint data fuel count w)
              = Some (GoError err)
         | None =>
           transmitted acts = (if count =? 0 then [data] else [])
           /\ exists rest,
               acts = Do count (newRequest hec endpoint data) :: rest
         end.
Proof.
  induction fuel as [|fuel IH]; intros count w Hcount;
    rewrite write_RETRY_eq;
    (destruct (http_NewRequest_err _) as [e|] eqn:Hnew;
     [exists []; rewrite app_nil_r; simpl; auto|]); cbv zeta;
    assert (Hone : exists acts : World,
      w ++ [Do count (newRequest hec endpoint data)] = w ++ acts
      /\ Forall (eq data) (attempts acts)
      /\ Forall (eq retryWaitTime) (waits acts)
      /\ transmitted acts = (if count =? 0 then [data] else [])
         /\ exists rest, acts = Do count (newRequest hec endpoint data) :: rest)
      by (exists [Do count (newRequest hec endpoint data)]; simpl;
          destruct (count =? 0); repeat split; eauto);
    destruct (httpClient hec w _) as [err|code err|code body];
    try exact Hone;
    destruct (negb (code =? StatusOK)); try exact Hone;
    destruct (retriable _ && _); try exact Hone.
  destruct (IH (count + 1)
              ((w ++ [Do count (newRequest hec endpoint data)])
                 ++ [Sleep retryWaitTime])) as (acts & Hw & Hb & Hs & Ht);
    [lia|].
  destruct Ht as [Ht _].
  exists (Do count (newRequest hec endpoint data)
            :: Sleep retryWaitTime :: acts).
  rewrite Hw, <- !app_assoc. simpl.
  repeat split; auto.
  - replace (count + 1 =? 0) with false in Ht by lia.
    rewrite Ht. destruct (count =? 0); reflexivity.
  - eauto.
Qed.

(** [write] returns errors of the transport and responses, never an
    [ErrEventTooLong]. *)
Lemma write_RETRY_fault (fuel : nat) :
  forall (count : Z) (w : World) (err : error),
    fst (write_RETRY hec endpoint data fuel count w) = Some err ->
    reported (Some err) = None.
Proof.
  induction fuel as [|fuel IH]; intros count w err;
    rewrite write_RETRY_eq;
    (destruct (http_NewRequest_err _) as [e|];
     [simpl; intros [= <-]; reflexivity|]); cbv zeta;
    destruct (httpClient hec w _) as [e|code e|code body];
    try (simpl; intros [= <-]; reflexivity);
    destruct (negb (code =? StatusOK));
    try (simpl; intros [= <-]; reflexivity); try discriminate;
    destruct (retriable _ && _);
    try (simpl; intros [= <-]; reflexivity).
  apply IH.
Qed.

End WriteFacts.

(** ** Facts about the chunker *)

Lemma chunks_concat (maxLength : Z) (items : list Item) :
  forall buffer : list byte,
    List.concat (chunks maxLength items buffer)
    = buffer ++ List.concat (pieces items).
Proof.
  induction items as [|[| |piece] items IH]; intros buffer; simpl; auto.
  - destruct (Z.gtb_spec (len buffer) 0) as [Hb|Hb]; simpl; [reflexivity|].
    destruct buffer; [reflexivity|].
    unfold len in Hb. cbn [List.length] in Hb. lia.
  - destruct (len buffer + len piece >? maxLength); simpl; rewrite IH.
    + reflexivity.
    + now rewrite app_assoc.
Qed.

(** When no piece is longer than [maxLength], no emitted body is, and none
    is empty. *)
Lemma chunks_bound (maxLength : Z) (items : list Item) :
  Forall (fun piece => len piece <= maxLength) (pieces items) ->
  forall buffer : list byte, buffer = [] \/ len buffer <= maxLength ->
    Forall (fun body => 0 < len body <= maxLength)
      (chunks maxLength items buffer).
Proof.
  induction items as [|[| |piece] items IH]; intros Hitems buffer Hbuffer;
    simpl in *; auto.
  - destruct (Z.gtb_spec (len buffer) 0) as [Hb|Hb]; constructor; auto.
    destruct Hbuffer as [->|Hbuffer]; [discriminate Hb|lia].
  - inversion Hitems as [|? ? Hpiece Hrest]; subst.
    destruct (Z.gtb_spec (len buffer + len piece) maxLength) as [Hsum|Hsum].
    + assert (Hlen : 0 < len buffer <= maxLength).
      { destruct Hbuffer as [->|Hbuffer]; [simpl in Hsum; lia|].
        pose proof (len_nonneg piece). lia. }
      constructor; [exact Hlen|]. apply IH; [assumption|]. now right.
    + apply IH; [assumption|]. right. rewrite len_app. lia.
Qed.

(** Every emitted body is made of whole pieces. *)
Lemma chunks_whole (Q : list byte -> Prop) (maxLength : Z)
    (items : list Item) :
  Forall Q (pieces items) ->
  forall buffer : list byte,
    (exists ps, buffer = List.concat ps /\ Forall Q ps) ->
    Forall (fun body => exists ps, body = List.concat ps /\ Forall Q ps)
      (chunks maxLength items buffer).
Proof.
  induction items as [|[| |piece] items IH]; intros Hitems buffer Hbuffer;
    simpl in *; auto.
  - destruct (len buffer >? 0); constructor; auto.
  - inversion Hitems as [|? ? Hpiece Hrest]; subst.
    destruct (len buffer + len piece >? maxLength).
    + constructor; [assumption|]. apply IH; [assumption|].
      exists [piece]. simpl. rewrite app_nil_r. auto.
    + apply IH; [assumption|].
      destruct Hbuffer as (ps & -> & Hps).
      exists (ps ++ [piece]). rewrite concat_app. simpl.
      rewrite app_nil_r. split; [reflexivity|].
      apply Forall_app. auto.
Qed.

(** The oversize list holds the positions of the oversize items, counted
    from [index] over all items. *)
Lemma oversize_In (items : list Item) :
  forall (index i : Z),
    In i (oversize items index) <->
    exists k : nat,
      nth_error items k = Some Oversize /\ i = index + Z.of_nat k.
Proof.
  induction items as [|item items IH]; intros index i.
  - simpl. split; [tauto|]. intros ([|k] & Hk & _); discriminate.
  - assert (Hrest : In i (oversize items (index + 1)) <->
              exists k : nat, nth_error (item :: items) (S k) = Some Oversize
                              /\ i = index + Z.of_nat (S k)).
    { rewrite IH. split; intros (k & Hk & ->); exists k; split; auto; lia. }
    destruct item; simpl oversize.
    1,3: rewrite Hrest; split;
      [intros (k & Hk); exists (S k); exact Hk
      |intros ([|k] & Hk & Hi); [discriminate|exists k; auto]].
    simpl In. rewrite Hrest. split.
    + intros [<-|(k & Hk)]; [exists 0%nat; split; [reflexivity|lia]|].
      exists (S k); exact Hk.
    + intros ([|k] & Hk & Hi); [left; lia|right; exists k; auto].
Qed.

Lemma oversize_sorted (items : list Item) :
  forall index : Z, StronglySorted Z.lt (oversize items index).
Proof.
  induction items as [|item items IH]; intros index; [constructor|].
  destruct item; simpl; auto.
  constructor; [apply IH|].
  apply Forall_forall. intros i Hi.
  apply oversize_In in Hi. destruct Hi as (k & _ & ->). lia.
Qed.

Lemma pieces_app (xs ys : list Item) :
  pieces (xs ++ ys) = pieces xs ++ pieces ys.
Proof.
  induction xs as [|[| |piece] xs IH]; simpl; auto. now rewrite IH.
Qed.

Section SubmitFacts.
Context {P : Platform}.
Variables (hec : Client) (endpoint : string).

Lemma write_trace (data : list byte) (w : World) :
  exists acts : World,
    snd (write hec endpoint data w) = w ++ acts
    /\ Forall (eq data) (attempts acts)
    /\ Forall (eq retryWaitTime) (waits acts)
    /\ (transmitted acts = [data]
        \/ acts = [] /\ fst (write hec endpoint data w) <> None)
    /\ (acts = []
        \/ exists rest, acts = Do 0 (newRequest hec endpoint data) :: rest).
Proof.
  unfold write.
  destruct (write_RETRY_trace hec endpoint data (Z.to_nat (retries hec))
              0 w) as (acts & Hw & Hb & Hs & Ht); [lia|].
  exists acts. repeat split; auto.
  - destruct (http_NewRequest_err _).
    + right. destruct Ht as [-> ->]. split; [reflexivity|discriminate].
    + left. apply Ht.
  - destruct (http_NewRequest_err _); [left|right]; apply Ht.
Qed.

Lemma write_fault (data : list byte) (w : World) (err : error) :
  fst (write hec endpoint data w) = Some err -> reported (Some err) = None.
Proof. apply write_RETRY_fault. Qed.

Lemma deliver_app (xs ys : list (list byte)) :
  forall w : World,
    deliver hec endpoint (xs ++ ys) w =
    match deliver hec endpoint xs w with
    | (Some err, w') => (Some err, w')
    | (None, w') => deliver hec endpoint ys w'
    end.
Proof.
  induction xs as [|x xs IH]; intros w; simpl; [reflexivity|].
  destruct (write hec endpoint x w) as [[err|] w']; [reflexivity|].
  apply IH.
Qed.

Lemma deliver_fault (bodies : list (list byte)) :
  forall (w : World) (err : error),
    fst (deliver hec endpoint bodies w) = Some err ->
    reported (Some err) = None.
Proof.
  induction bodies as [|body bodies IH]; intros w err; simpl;
    [discriminate|].
  destruct (write hec endpoint body w) as [[e|] w'] eqn:Hw.
  - simpl. intros [= <-]. apply (write_fault body w). now rewrite Hw.
  - apply IH.
Qed.

(** What [deliver] adds to the trace: attempts with the given bodies only;
    the transmitted bodies are a prefix of them, all of them when nothing
    failed. *)
Lemma deliver_trace (bodies : list (list byte)) :
  forall w : World,
    exists acts : World,
      snd (deliver hec endpoint bodies w) = w ++ acts
      /\ Forall (fun b => In b bodies) (attempts acts)
      /\ (exists k : nat, transmitted acts = firstn k bodies)
      /\ (fst (deliver hec endpoint bodies w) = None ->
          transmitted acts = bodies).
Proof.
  induction bodies as [|body bodies IH]; intros w; simpl.
  - exists []. rewrite app_nil_r. repeat split; auto. now exists 0%nat.
  - destruct (write_trace body w) as (a1 & Hw1 & Hb1 & _ & Ht1 & _).
    destruct (write hec endpoint body w) as [[err|] w'] eqn:Hw;
      simpl in Hw1; subst w'.
    + exists a1. simpl. repeat split; auto.
      * eapply Forall_impl; [|exact Hb1]. intros b <-. now left.
      * destruct Ht1 as [->|[-> _]]; [now exists 1%nat|now exists 0%nat].
      * discriminate.
    + destruct (IH (w ++ a1)) as (a2 & Hw2 & Hb2 & (k & Hk) & Hall).
      exists (a1 ++ a2). rewrite Hw2, app_assoc.
      destruct Ht1 as [Ht1|[_ Hne]]; [|now elim Hne].
      rewrite attempts_app, transmitted_app, Ht1.
      repeat split.
      * apply Forall_app. split.
        -- eapply Forall_impl; [|exact Hb1]. intros b <-. now left.
        -- eapply Forall_impl; [|exact Hb2]. intros b Hb. now right.
      * exists (S k). simpl. now rewrite Hk.
      * intros Hnone. simpl. now rewrite (Hall Hnone).
Qed.

(** The same for a whole submission, whose result tells whether all
    bodies went out. *)
Lemma submit_trace (bodies : list (list byte)) (over : list Z) (w : World) :
  exists acts : World,
    snd (submit hec endpoint bodies over w) = w ++ acts
    /\ Forall (fun b => In b bodies) (attempts acts)
    /\ (exists k : nat, transmitted acts = firstn k bodies)
    /\ (reported (fst (submit hec endpoint bodies over w)) <> None ->
        transmitted acts = bodies).
Proof.
  destruct (deliver_trace bodies w) as (acts & Hw & Hb & Hk & Hall).
  exists acts. unfold submit.
  destruct (deliver hec endpoint bodies w) as [[err|] w'] eqn:Hd;
    simpl in *.
  - repeat split; auto. intros Hrep. elim Hrep.
    apply (deliver_fault bodies w). now rewrite Hd.
  - destruct over; simpl; repeat split; auto.
Qed.

Lemma submit_reported (bodies : list (list byte)) (over : list Z) (w : World) :
  match reported (fst (submit hec endpoint bodies over w)) with
  | Some l => l = over
  | None => True
  end.
Proof.
  unfold submit.
  destruct (deliver hec endpoint bodies w) as [[err|] w'] eqn:Hd;
    cbn [fst].
  - rewrite (deliver_fault bodies w err); [trivial|]. now rewrite Hd.
  - destruct over; reflexivity.
Qed.

(** ** The code is the chunker of the specification, then [submit] *)

Lemma WriteBatch_range_submit (events : list Event) :
  forall (index : Z) (buffer : list byte) (tooLongs : list Z) (w : World),
    WriteBatch_range hec endpoint events index buffer tooLongs w =
    submit hec endpoint
      (chunks (maxLength hec) (map (record_item (maxLength hec)) events)
         buffer)
      (tooLongs ++ oversize (map (record_item (maxLength hec)) events) index)
      w.
Proof.
  induction events as [|event events IH]; intros index buffer tooLongs w.
  - simpl. rewrite app_nil_r. unfold submit.
    destruct (len buffer >? 0); simpl.
    + destruct (write hec endpoint buffer w) as [[err|] w'];
        [reflexivity|]. now destruct tooLongs.
    + now destruct tooLongs.
  - cbn [WriteBatch_range map].
    pose proof (eq_refl (record_item (maxLength hec) event)) as Hitem.
    unfold record_item at 2 in Hitem.
    destruct (empty event);
      [cbn [chunks oversize]; rewrite Hitem; apply IH|].
    cbv zeta.
    destruct (len (json_Marshal event) >? maxLength hec);
      cbn [chunks oversize]; rewrite Hitem.
    + rewrite IH, <- app_assoc. reflexivity.
    + destruct (len buffer + len (json_Marshal event) >? maxLength hec).
      * unfold submit at 1. cbn [deliver app].
        destruct (write hec endpoint buffer w) as [[err|] w'];
          [reflexivity|]. rewrite IH. reflexivity.
      * apply IH.
Qed.


Lemma WriteRaw_scan_submit (tokens : list (list byte)) :
  forall (lineNo : Z) (buf : list byte) (tooLongs : list Z) (w : World),
    WriteRaw_scan hec endpoint tokens lineNo buf tooLongs w =
    submit hec endpoint
      (chunks (maxLength hec) (map (line_item (maxLength hec)) tokens) buf)
      (tooLongs ++ oversize (map (line_item (maxLength hec)) tokens) lineNo)
      w.
Proof.
  induction tokens as [|line tokens IH]; intros lineNo buf tooLongs w.
  - simpl. rewrite app_nil_r. unfold submit.
    destruct (len buf >? 0); simpl.
    + destruct (write hec endpoint buf w) as [[err|] w'];
        [reflexivity|]. now destruct tooLongs.
    + now destruct tooLongs.
  - cbn [WriteRaw_scan map].
    pose proof (eq_refl (line_item (maxLength hec) line)) as Hitem.
    unfold line_item at 2 in Hitem.
    destruct (len line >? maxLength hec);
      cbn [chunks oversize]; rewrite Hitem.
    + rewrite IH, <- app_assoc. reflexivity.
    + rewrite len_app.
      replace (len ["010"%byte]) with 1 by reflexivity.
      rewrite Z.add_assoc.
      destruct (len buf + len line + 1 >? maxLength hec).
      * unfold submit at 1. cbn [deliver app].
        destruct (write hec endpoint buf w) as [[err|] w'];
          [reflexivity|]. rewrite IH. reflexivity.
      * rewrite IH, app_assoc. reflexivity.
Qed.

End SubmitFacts.

(** ** Facts about the scanner *)

Lemma dropCR_plain (data : list byte) :
  Forall (fun b => b <> "010"%byte /\ b <> "013"%byte) data ->
  bufio.dropCR data = data.
Proof.
  intros Hdata. unfold bufio.dropCR. rewrite rev_append_rev, app_nil_r.
  destruct (rev data) as [|c before] eqn:Hrev; [reflexivity|].
  destruct (Byte.eqb c "013") eqn:Hc; [|reflexivity].
  apply Byte.byte_dec_bl in Hc. subst c.
  rewrite Forall_forall in Hdata.
  destruct (Hdata "013"%byte) as [_ Hcr]; [|now elim Hcr].
  apply in_rev. rewrite Hrev. now left.
Qed.

(** A line that ends in the input is handed over when it fits. *)
Lemma Scan_from_line (line : list byte) :
  forall (rest acc : list byte) (n : Z),
    Forall (fun b => b <> "010"%byte /\ b <> "013"%byte) line ->
    n = len acc -> n + len line < bufio.MaxScanTokenSize ->
    bufio.Scan_from (line ++ "010"%byte :: rest) acc n
    = bufio.dropCR (rev acc ++ line) :: bufio.Scan_from rest [] 0.
Proof.
  induction line as [|b line IH]; intros rest acc n Hline Hn Hfit.
  - simpl. now rewrite rev_append_rev, !app_nil_r.
  - inversion Hline as [|? ? [Hb _] Hrest]; subst.
    cbn [app bufio.Scan_from].
    destruct (Byte.eqb b "010") eqn:Heq;
      [apply Byte.byte_dec_bl in Heq; now elim Hb|].
    unfold len in Hfit. cbn [List.length] in Hfit.
    destruct (Z.ltb_spec (len acc + 1) bufio.MaxScanTokenSize) as [_|Hbad];
      [|unfold len in Hbad; lia].
    rewrite IH; auto.
    + simpl. now rewrite <- app_assoc.
    + unfold len. cbn [List.length]. lia.
    + unfold len. lia.
Qed.

(** So is a last line without terminator, unless it is empty. *)
Lemma Scan_from_last (line : list byte) :
  forall (acc : list byte) (n : Z),
    Forall (fun b => b <> "010"%byte /\ b <> "013"%byte) line ->
    n = len acc -> n + len line < bufio.MaxScanTokenSize ->
    bufio.Scan_from line acc n
    = match rev acc ++ line with
      | [] => []
      | _ :: _ => [bufio.dropCR (rev acc ++ line)]
      end.
Proof.
  induction line as [|b line IH]; intros acc n Hline Hn Hfit.
  - simpl. rewrite app_nil_r. destruct acc as [|a acc]; [reflexivity|].
    rewrite rev_append_rev, app_nil_r.
    destruct (rev (a :: acc)) eqn:Hrev; [|reflexivity].
    apply (f_equal (@List.length byte)) in Hrev.
    rewrite length_rev in Hrev. discriminate.
  - inversion Hline as [|? ? [Hb _] Hrest]; subst.
    cbn [bufio.Scan_from].
    destruct (Byte.eqb b "010") eqn:Heq;
      [apply Byte.byte_dec_bl in Heq; now elim Hb|].
    unfold len in Hfit. cbn [List.length] in Hfit.
    destruct (Z.ltb_spec (len acc + 1) bufio.MaxScanTokenSize) as [_|Hbad];
      [|unfold len in Hbad; lia].
    rewrite IH; auto.
    + simpl. now rewrite <- app_assoc.
    + unfold len. cbn [List.length]. lia.
    + unfold len. lia.
Qed.

(** On an input of plain lines the scanner yields these lines, the last
    one also when its terminator is missing. *)
Lemma Scanner_tokens_plain (lines : list (list byte)) (last : list byte) :
  Forall plain lines -> plain last -> last <> [] ->
  bufio.Scanner_tokens (List.concat (map terminated lines) ++ last)
  = lines ++ [last].
Proof.
  unfold bufio.Scanner_tokens. intros Hlines [Hlast Hfit] Hne.
  induction Hlines as [|line lines [Hline Hlen] _ IH]; simpl.
  - rewrite Scan_from_last; auto. simpl.
    destruct last; [now elim Hne|]. now rewrite dropCR_plain.
  - unfold terminated at 1. rewrite <- !app_assoc. simpl.
    rewrite Scan_from_line; auto. simpl. rewrite IH.
    now rewrite dropCR_plain.
Qed.

(** ** From items back to records and lines *)

(** What the scanner hands over are, in order, the first so many lines of
    the input, each with one trailing carriage return dropped. *)
Lemma Scan_from_input_lines (data : list byte) :
  forall (line : list byte) (n : Z),
    exists k : nat,
      bufio.Scan_from data line n
      = firstn k (map bufio.dropCR (split_lines data line)).
Proof.
  induction data as [|b data IH]; intros line n;
    cbn [bufio.Scan_from split_lines].
  - destruct line as [|c line]; [now exists 0%nat|].
    exists 1%nat. now rewrite rev_append_rev, app_nil_r.
  - destruct (Byte.eqb b "010").
    + destruct (IH [] 0) as (k & ->). exists (S k).
      now rewrite rev_append_rev, app_nil_r.
    + destruct (n + 1 <? bufio.MaxScanTokenSize); [apply IH|].
      now exists 0%nat.
Qed.

Lemma oversize_map {A : Type} (f : A -> Item) (select : A -> Prop)
    (xs : list A) (first : Z) :
  (forall x, f x = Oversize <-> select x) ->
  lists_positions select first xs (oversize (map f xs) first).
Proof.
  intros Hf. split; [|apply oversize_sorted].
  intros i. rewrite oversize_In. split.
  - intros (k & Hk & ->). rewrite nth_error_map in Hk.
    destruct (nth_error xs k) as [x|] eqn:Hx; [|discriminate].
    exists k, x. injection Hk as Hk. apply Hf in Hk. auto.
  - intros (k & x & Hx & Hsel & ->). exists k. split; [|reflexivity].
    rewrite nth_error_map, Hx. simpl. f_equal. now apply Hf.
Qed.

Lemma whole_lines (Q : list byte -> Prop) (ps : list (list byte)) :
  Forall (fun p => exists line, p = terminated line /\ Q line) ps ->
  exists lines, ps = map terminated lines /\ Forall Q lines.
Proof.
  induction 1 as [|p ps (line & -> & Hline) _ (lines & -> & Hlines)].
  - now exists [].
  - exists (line :: lines). split; [reflexivity|]. now constructor.
Qed.

Section ItemFacts.
Context {P : Platform}.

Lemma record_item_Oversize (maxLength : Z) (event : Event) :
  record_item maxLength event = Oversize <->
  empty event = false /\ len (json_Marshal event) > maxLength.
Proof.
  unfold record_item. destruct (empty event).
  - split; [discriminate|]. intros [? _]. discriminate.
  - destruct (Z.gtb_spec (len (json_Marshal event)) maxLength).
    + split; [split; [reflexivity|lia]|reflexivity].
    + split; [discriminate|]. intros [_ ?]. lia.
Qed.

Lemma line_item_Oversize (maxLength : Z) (line : list byte) :
  line_item maxLength line = Oversize <-> len line > maxLength.
Proof.
  unfold line_item. destruct (Z.gtb_spec (len line) maxLength).
  - split; [lia|reflexivity].
  - split; [discriminate|lia].
Qed.

Lemma pieces_records (maxLength : Z) (events : list Event) :
  pieces (map (record_item maxLength) events)
  = map json_Marshal
      (filter (fun e => negb (empty e)
                        && (len (json_Marshal e) <=? maxLength)) events).
Proof.
  induction events as [|event events IH]; [reflexivity|].
  cbn [map filter]. unfold record_item at 1.
  destruct (empty event); cbn [negb andb pieces]; [exact IH|].
  destruct (Z.gtb_spec (len (json_Marshal event)) maxLength);
    destruct (Z.leb_spec (len (json_Marshal event)) maxLength);
    try lia; cbn [pieces map]; now rewrite IH.
Qed.

Lemma pieces_lines (maxLength : Z) (lines : list (list byte)) :
  pieces (map (line_item maxLength) lines)
  = map terminated (filter (fun l => len l <=? maxLength) lines).
Proof.
  induction lines as [|line lines IH]; [reflexivity|].
  cbn [map filter]. unfold line_item at 1.
  destruct (Z.gtb_spec (len line) maxLength);
    destruct (Z.leb_spec (len line) maxLength);
    try lia; cbn [pieces map]; now rewrite IH.
Qed.

Lemma WriteBatch_submit (hec : Client) (events : list Event) (w : World) :
  WriteBatch hec events w =
  submit hec ("/services/collector?channel=" ++ channel hec)%string
    (chunks (maxLength hec) (map (record_item (maxLength hec)) events) [])
    (oversize (map (record_item (maxLength hec)) events) 0) w.
Proof.
  unfold WriteBatch. destruct events as [|event events]; [reflexivity|].
  destruct (Z.eqb_spec (Z.of_nat (List.length (event :: events))) 0)
    as [Hlen|_]; [cbn [List.length] in Hlen; lia|].
  cbv zeta. now rewrite WriteBatch_range_submit.
Qed.

Lemma WriteRaw_submit (hec : Client) (reader : list byte)
    (metadata : option EventMetadata) (w : World) :
  WriteRaw hec reader metadata w =
  submit hec (rawHecEndpoint (channel hec) metadata)
    (chunks (maxLength hec)
       (map (line_item (maxLength hec)) (bufio.Scanner_tokens reader)) [])
    (oversize (map (line_item (maxLength hec)) (bufio.Scanner_tokens reader))
       1) w.
Proof. unfold WriteRaw. cbv zeta. now rewrite WriteRaw_scan_submit. Qed.

End ItemFacts.

Section BatchMode.
Context {P : Platform}.

(** In batch mode every request body on the wire, retries included, is
    non-empty and at most [maxLength] bytes long. *)
Lemma WriteBatch_bodies_bounded (hec : Client) (events : list Event)
    (w : World) :
  Forall (fun body => 0 < len body <= maxLength hec)
    (attempts (since w (snd (WriteBatch hec events w)))).
Proof.
  rewrite WriteBatch_submit.
  destruct (submit_trace hec
              ("/services/collector?channel=" ++ channel hec)%string
              (chunks (maxLength hec)
                 (map (record_item (maxLength hec)) events) [])
              (oversize (map (record_item (maxLength hec)) events) 0) w)
    as (acts & -> & Hin & _).
  rewrite since_app.
  eapply Forall_impl; [|exact Hin]. cbv beta. intros body Hbody.
  revert body Hbody. apply Forall_forall.
  apply chunks_bound; [|now left].
  rewrite pieces_records. apply Forall_forall. intros piece Hpiece.
  apply in_map_iff in Hpiece. destruct Hpiece as (e & <- & He).
  apply filter_In in He. destruct He as [_ He].
  apply andb_true_iff in He. destruct He as [_ He].
  now apply Z.leb_le.
Qed.


(** C2, as amended.  When no transmission fails (the call returns success
    or a too-long error), the byte lengths of the bodies that a batch
    submission transmits, each body counted once however often it is
    retried, add up to the encoded lengths of the records that are
    non-empty and not longer than [maxLength]. *)
Theorem WriteBatch_total_length (hec : Client) (events : list Event)
    (w : World) :
  reported (fst (WriteBatch hec events w)) <> None ->
  total_len (transmitted (since w (snd (WriteBatch hec events w))))
  = total_len
      (map json_Marshal
         (filter (fun e => negb (empty e)
                           && (len (json_Marshal e) <=? maxLength hec))
            events)).
Proof.
  rewrite WriteBatch_submit. intros Hok.
  destruct (submit_trace hec
              ("/services/collector?channel=" ++ channel hec)%string
              (chunks (maxLength hec)
                 (map (record_item (maxLength hec)) events) [])
              (oversize (map (record_item (maxLength hec)) events) 0) w)
    as (acts & Hw & _ & _ & Hall).
  rewrite Hw, since_app, (Hall Hok), !total_len_concat, chunks_concat.
  now rewrite pieces_records.
Qed.

(** C3, as amended.  The oversize list that a batch submission reports is
    exactly the list of the 0-based positions, counted over all records,
    of the records that are non-empty and whose encoding is strictly
    longer than [maxLength], in strictly ascending order. *)
Theorem WriteBatch_reported_positions (hec : Client) (events : list Event)
    (w : World) :
  match reported (fst (WriteBatch hec events w)) with
  | Some l =>
    lists_positions
      (fun e => empty e = false /\ len (json_Marshal e) > maxLength hec)
      0 events l
  | None => True
  end.
Proof.
  rewrite WriteBatch_submit.
  pose proof (submit_reported hec
                ("/services/collector?channel=" ++ channel hec)%string
                (chunks (maxLength hec)
                   (map (record_item (maxLength hec)) events) [])
                (oversize (map (record_item (maxLength hec)) events) 0) w)
    as Hrep.
  destruct (reported _) as [l|]; [|trivial]. subst l.
  apply oversize_map. intros e. apply record_item_Oversize.
Qed.

(** C8.  A batch submission of records that are all empty, the empty list
    included, returns success and leaves the trace as it was: nothing is
    transmitted. *)
Theorem WriteBatch_all_empty (hec : Client) (events : list Event)
    (w : World) :
  forallb empty events = true ->
  WriteBatch hec events w = (None, w).
Proof.
  intros Hempty. unfold WriteBatch.
  destruct (Z.of_nat (List.length events) =? 0); [reflexivity|]. cbv zeta.
  generalize 0 as index.
  induction events as [|event events IH]; intros index; [reflexivity|].
  simpl in Hempty. apply andb_true_iff in Hempty.
  destruct Hempty as [He Hrest].
  cbn [WriteBatch_range]. rewrite He. now apply IH.
Qed.

(** C10.  [WriteEvent] returns success without a request for an empty
    event; returns a too-long error with no index list, again without a
    request, for an event whose encoding is strictly longer than
    [maxLength]; and otherwise is one [write] of the encoded event, so
    that every attempt carries exactly that encoding. *)
Theorem WriteEvent_cases (hec : Client) (event : Event) (w : World) :
  let endpoint := ("/services/collector?channel=" ++ channel hec)%string in
  let data := json_Marshal event in
  (empty event = true -> WriteEvent hec event w = (None, w))
  /\ (empty event = false -> len data > maxLength hec ->
      WriteEvent hec event w = (Some (ErrEventTooLong []), w))
  /\ (empty event = false -> len data <= maxLength hec ->
      WriteEvent hec event w = write hec endpoint data w
      /\ Forall (eq data) (attempts (since w (snd (WriteEvent hec event w))))
      /\ (fst (WriteEvent hec event w) = None ->
          transmitted (since w (snd (WriteEvent hec event w))) = [data])).
Proof.
  cbv zeta. unfold WriteEvent. split; [|split].
  - now intros ->.
  - intros -> Hlong.
    destruct (Z.gtb_spec (len (json_Marshal event)) (maxLength hec));
      [reflexivity|lia].
  - intros -> Hfit.
    destruct (Z.gtb_spec (len (json_Marshal event)) (maxLength hec));
      [lia|].
    destruct (write_trace hec
                ("/services/collector?channel=" ++ channel hec)%string
                (json_Marshal event) w) as (acts & Hw & Hb & _ & Ht & _).
    rewrite Hw, since_app. split; [reflexivity|]. split; [exact Hb|].
    intros Hnone. destruct Ht as [Ht|[_ Hne]]; [exact Ht|now elim Hne].
Qed.

End BatchMode.

Section Retrier.
Context {P : Platform}.

(** C5.  [retriable] holds of the codes 9 (server busy) and 8 (internal
    server error) and of no other.  When the first attempt of [write] is
    answered, with a status other than 200, by a response of any other
    code, [write] returns that response as the error after this one
    attempt, without a wait, whatever [hec.retries] is. *)
Theorem write_permanent_codes :
  (forall code : Z,
      retriable code = true <->
      code = StatusServerBusy \/ code = StatusInternalServerError)
  /\ (forall (hec : Client) (endpoint : string) (data : list byte)
             (w : World) (status : Z) (body : list byte),
         let req := newRequest hec endpoint data in
         http_NewRequest_err (serverURL hec ++ endpoint)%string = None ->
         httpClient hec w req = Replies status body ->
         status <> StatusOK ->
         Code (responseFrom body) <> StatusServerBusy ->
         Code (responseFrom body) <> StatusInternalServerError ->
         write hec endpoint data w
         = (Some (ResponseError (responseFrom body)), w ++ [Do 0 req])).
Proof.
  assert (Hretriable : forall code : Z,
             retriable code = true <->
             code = StatusServerBusy \/ code = StatusInternalServerError).
  { intros code. unfold retriable. rewrite orb_true_iff, !Z.eqb_eq.
    tauto. }
  split; [exact Hretriable|].
  intros hec endpoint data w status body req Hnew Hreply Hstatus H9 H8.
  unfold write. rewrite write_RETRY_eq, Hnew. cbv zeta. fold req.
  rewrite Hreply.
  destruct (Z.eqb_spec status StatusOK) as [Heq|_]; [now elim Hstatus|].
  cbn [negb].
  destruct (retriable (Code (responseFrom body))) eqn:Hr; [|reflexivity].
  apply Hretriable in Hr. tauto.
Qed.

(** C6.  When the first two attempts for a body are answered with code 9
    and the third with status 200, and [hec.retries] is at least 2,
    [write] returns success after exactly three attempts and two waits of
    [retryWaitTime].  Every call of [write] starts its counter at zero:
    the first thing it adds to the trace, if anything, is an attempt with
    the counter at 0. *)
Theorem write_busy_twice_then_ok (hec : Client) (endpoint : string)
    (data : list byte) (w : World) (s1 s2 : Z) (b1 b2 b3 : list byte) :
  let req := newRequest hec endpoint data in
  let w1 := w ++ [Do 0 req; Sleep retryWaitTime] in
  let w2 := w1 ++ [Do 1 req; Sleep retryWaitTime] in
  2 <= retries hec ->
  http_NewRequest_err (serverURL hec ++ endpoint)%string = None ->
  httpClient hec w req = Replies s1 b1 -> s1 <> StatusOK ->
  Code (responseFrom b1) = StatusServerBusy ->
  httpClient hec w1 req = Replies s2 b2 -> s2 <> StatusOK ->
  Code (responseFrom b2) = StatusServerBusy ->
  httpClient hec w2 req = Replies StatusOK b3 ->
  write hec endpoint data w = (None, w2 ++ [Do 2 req])
  /\ List.length (attempts (since w (w2 ++ [Do 2 req]))) = 3%nat
  /\ waits (since w (w2 ++ [Do 2 req])) = [retryWaitTime; retryWaitTime]
  /\ (forall (data' : list byte) (w' : World),
         exists acts : World,
           snd (write hec endpoint data' w') = w' ++ acts
           /\ (acts = []
               \/ exists rest,
                   acts = Do 0 (newRequest hec endpoint data') :: rest)).
Proof.
  intros req w1 w2 Hretries Hnew Hr1 Hs1 Hc1 Hr2 Hs2 Hc2 Hr3.
  split; [|split; [|split]].
  - unfold write.
    replace (Z.to_nat (retries hec))
      with (S (S (Z.to_nat (retries hec - 2)))) by lia.
    rewrite write_RETRY_eq, Hnew. cbv zeta. fold req. rewrite Hr1.
    destruct (Z.eqb_spec s1 StatusOK) as [Heq|_]; [now elim Hs1|].
    cbn [negb]. rewrite Hc1.
    destruct (Z.ltb_spec 0 (retries hec)) as [_|Hbad]; [|lia].
    cbn [retriable andb orb].
    replace ((w ++ [Do 0 req]) ++ [Sleep retryWaitTime]) with w1
      by (unfold w1; now rewrite <- app_assoc).
    rewrite write_RETRY_eq, Hnew. cbv zeta. fold req. rewrite Hr2.
    destruct (Z.eqb_spec s2 StatusOK) as [Heq|_]; [now elim Hs2|].
    cbn [negb]. rewrite Hc2.
    destruct (Z.ltb_spec (0 + 1) (retries hec)) as [_|Hbad]; [|lia].
    cbn [retriable andb orb].
    replace ((w1 ++ [Do (0 + 1) req]) ++ [Sleep retryWaitTime]) with w2
      by (unfold w2; now rewrite <- app_assoc).
    rewrite write_RETRY_eq, Hnew. cbv zeta. fold req. rewrite Hr3.
    reflexivity.
  - unfold w2, w1. rewrite <- !app_assoc, since_app. reflexivity.
  - unfold w2, w1. rewrite <- !app_assoc, since_app. reflexivity.
  - intros data' w'.
    destruct (write_trace hec endpoint data' w')
      as (acts & Hw & _ & _ & _ & Hfirst).
    now exists acts.
Qed.

(** C7.  In batch mode and in raw mode alike: when the bodies emitted
    before [body] went out and the transmission of [body] fails with
    [err], the call returns [err] in the world [w2] in which that
    transmission ended, so that nothing is transmitted after it whatever
    the rest of the input is; and [err] is a fault of the transport or of
    the remote end, with which no oversize list is reported. *)
Theorem fault_stops_the_call (hec : Client) :
  (forall (events : list Event) (sent later : list (list byte))
          (body : list byte) (err : error) (w w1 w2 : World),
      let endpoint :=
        ("/services/collector?channel=" ++ channel hec)%string in
      chunks (maxLength hec) (map (record_item (maxLength hec)) events) []
      = sent ++ body :: later ->
      deliver hec endpoint sent w = (None, w1) ->
      write hec endpoint body w1 = (Some err, w2) ->
      WriteBatch hec events w = (Some err, w2)
      /\ reported (Some err) = None)
  /\ (forall (reader : list byte) (metadata : option EventMetadata)
             (sent later : list (list byte)) (body : list byte)
             (err : error) (w w1 w2 : World),
         let endpoint := rawHecEndpoint (channel hec) metadata in
         chunks (maxLength hec)
           (map (line_item (maxLength hec)) (bufio.Scanner_tokens reader)) []
         = sent ++ body :: later ->
         deliver hec endpoint sent w = (None, w1) ->
         write hec endpoint body w1 = (Some err, w2) ->
         WriteRaw hec reader metadata w = (Some err, w2)
         /\ reported (Some err) = None).
Proof.
  split.
  - intros events sent later body err w w1 w2 endpoint Hchunks Hsent Hfail.
    split; [|apply (write_fault hec endpoint body w1); now rewrite Hfail].
    rewrite WriteBatch_submit. fold endpoint. rewrite Hchunks.
    unfold submit. rewrite deliver_app, Hsent. cbn [deliver].
    now rewrite Hfail.
  - intros reader metadata sent later body err w w1 w2 endpoint
      Hchunks Hsent Hfail.
    split; [|apply (write_fault hec endpoint body w1); now rewrite Hfail].
    rewrite WriteRaw_submit. fold endpoint. rewrite Hchunks.
    unfold submit. rewrite deliver_app, Hsent. cbn [deliver].
    now rewrite Hfail.
Qed.

(** In raw mode the reported oversize list is exactly the list of the
    1-based numbers, counted over all lines that the scanner hands over,
    of the lines that are strictly longer than [maxLength]. *)
Lemma WriteRaw_reported_tokens (hec : Client) (reader : list byte)
    (metadata : option EventMetadata) (w : World) :
  match reported (fst (WriteRaw hec reader metadata w)) with
  | Some l =>
    lists_positions (fun line => len line > maxLength hec) 1
      (bufio.Scanner_tokens reader) l
  | None => True
  end.
Proof.
  rewrite WriteRaw_submit.
  pose proof (submit_reported hec (rawHecEndpoint (channel hec) metadata)
                (chunks (maxLength hec)
                   (map (line_item (maxLength hec))
                      (bufio.Scanner_tokens reader)) [])
                (oversize (map (line_item (maxLength hec))
                             (bufio.Scanner_tokens reader)) 1) w)
    as Hrep.
  destruct (reported _) as [l|]; [|trivial]. subst l.
  apply oversize_map. intros line. apply line_item_Oversize.
Qed.

(** C9, as amended.  In raw mode every request body on the wire is the
    concatenation of lines that the scanner hands over, none longer than
    [maxLength], each followed by one line feed; these lines are, in
    order, the first so many lines of the input, each with one trailing
    carriage return dropped.  When no transmission fails the transmitted
    bytes are those of all such lines in order; in particular, for an
    input of plain lines (no carriage return, each fitting the buffer of
    the scanner) whose last line has no terminator, they are the input
    followed by one line feed. *)
Theorem WriteRaw_bodies_terminated_lines (hec : Client) (reader : list byte)
    (metadata : option EventMetadata) (w : World) :
  let result := fst (WriteRaw hec reader metadata w) in
  let acts := since w (snd (WriteRaw hec reader metadata w)) in
  Forall (fun body =>
            exists lines : list (list byte),
              body = List.concat (map terminated lines)
              /\ Forall (fun line =>
                           In line (bufio.Scanner_tokens reader)
                           /\ len line <= maxLength hec) lines)
    (attempts acts)
  /\ (reported result <> None ->
      List.concat (transmitted acts)
      = List.concat
          (map terminated
             (filter (fun line => len line <=? maxLength hec)
                (bufio.Scanner_tokens reader))))
  /\ (forall (lines : list (list byte)) (last : list byte),
         reader = List.concat (map terminated lines) ++ last ->
         Forall plain lines -> plain last -> last <> [] ->
         Forall (fun line => len line <= maxLength hec) (lines ++ [last]) ->
         reported result <> None ->
         List.concat (transmitted acts) = reader ++ ["010"%byte])
  /\ (exists k : nat,
         bufio.Scanner_tokens reader
         = firstn k (map bufio.dropCR (split_lines reader []))).
Proof.
  cbv zeta. rewrite WriteRaw_submit.
  destruct (submit_trace hec (rawHecEndpoint (channel hec) metadata)
              (chunks (maxLength hec)
                 (map (line_item (maxLength hec))
                    (bufio.Scanner_tokens reader)) [])
              (oversize (map (line_item (maxLength hec))
                           (bufio.Scanner_tokens reader)) 1) w)
    as (acts & Hw & Hin & _ & Hall).
  rewrite Hw, since_app.
  assert (Hbytes :
            reported (fst (submit hec (rawHecEndpoint (channel hec) metadata)
                             (chunks (maxLength hec)
                                (map (line_item (maxLength hec))
                                   (bufio.Scanner_tokens reader)) [])
                             (oversize (map (line_item (maxLength hec))
                                          (bufio.Scanner_tokens reader)) 1)
                             w)) <> None ->
            List.concat (transmitted acts)
            = List.concat
                (map terminated
                   (filter (fun line => len line <=? maxLength hec)
                      (bufio.Scanner_tokens reader)))).
  { intros Hok. rewrite (Hall Hok), chunks_concat, pieces_lines.
    reflexivity. }
  split; [|split; [exact Hbytes|split;
                                  [|apply Scan_from_input_lines]]].
  - eapply Forall_impl; [|exact Hin]. cbv beta. intros body Hbody.
    revert body Hbody. apply Forall_forall.
    eapply Forall_impl;
      [|apply (chunks_whole
                 (fun p => exists line,
                      p = terminated line
                      /\ (In line (bufio.Scanner_tokens reader)
                          /\ len line <= maxLength hec)))].
    + cbv beta. intros body (ps & -> & Hps).
      destruct (whole_lines _ _ Hps) as (lines & -> & Hlines).
      now exists lines.
    + rewrite pieces_lines. apply Forall_forall. intros p Hp.
      apply in_map_iff in Hp. destruct Hp as (line & <- & Hline).
      apply filter_In in Hline. destruct Hline as [Hline Hlen].
      exists line. split; [reflexivity|]. split; [exact Hline|].
      now apply Z.leb_le.
    + now exists [].
  - intros lines last -> Hlines Hlast Hne Hfit Hok.
    rewrite (Hbytes Hok), Scanner_tokens_plain by assumption.
    replace (filter _ (lines ++ [last])) with (lines ++ [last]).
    + rewrite map_app, concat_app. simpl. unfold terminated at 2.
      now rewrite app_nil_r, app_assoc.
    + symmetry. apply forallb_filter_id. apply forallb_forall.
      intros line Hline. rewrite Forall_forall in Hfit.
      apply Z.leb_le. now apply Hfit.
Qed.

End Retrier.

(** * Further properties of the code *)

(** ** The retrier *)

Lemma retry_trace_counts (req : Request) (more : nat) :
  forall count : Z,
    List.length (attempts (retry_trace req count more)) = S more
    /\ waits (retry_trace req count more) = repeat retryWaitTime more
    /\ Forall (eq (Body req)) (attempts (retry_trace req count more)).
Proof.
  induction more as [|more IH]; intros count; simpl.
  - repeat split. repeat constructor.
  - destruct (IH (count + 1)) as (Ha & Hw & Hb).
    rewrite Ha, Hw. repeat split. now constructor.
Qed.

Section Retries.
Context {P : Platform}.
Variables (hec : Client) (endpoint : string) (data : list byte).

Lemma write_RETRY_shape (fuel : nat) :
  forall (count : Z) (w : World),
    http_NewRequest_err (serverURL hec ++ endpoint)%string = None ->
    exists more : nat,
      (more <= fuel)%nat
      /\ count + Z.of_nat more <= Z.max count (retries hec)
      /\ snd (write_RETRY hec endpoint data fuel count w)
         = w ++ retry_trace (newRequest hec endpoint data) count more.
Proof.
  induction fuel as [|fuel IH]; intros count w Hnew;
    rewrite write_RETRY_eq, Hnew; cbv zeta;
    assert (Hone : forall f : nat, exists more : nat,
      (more <= f)%nat
      /\ count + Z.of_nat more <= Z.max count (retries hec)
      /\ w ++ [Do count (newRequest hec endpoint data)]
         = w ++ retry_trace (newRequest hec endpoint data) count more)
      by (intros f; exists 0%nat; simpl; repeat split; lia);
    destruct (httpClient hec w _) as [err|code err|code body];
    try apply Hone;
    destruct (negb (code =? StatusOK)); try apply Hone;
    destruct (retriable _); cbn [andb]; try apply Hone;
    destruct (Z.ltb_spec count (retries hec)) as [Hlt|_];
    try apply Hone.
  destruct (IH (count + 1)
              ((w ++ [Do count (newRequest hec endpoint data)])
                 ++ [Sleep retryWaitTime]) Hnew) as (more & Hle & Hmax & Hw).
  exists (S more). split; [lia|]. split; [lia|].
  rewrite Hw, <- !app_assoc. reflexivity.
Qed.

Lemma write_adds (w : World) :
  exists acts : World,
    snd (write hec endpoint data w) = w ++ acts
    /\ (acts = []
        \/ exists more : nat,
            Z.of_nat more <= Z.max 0 (retries hec)
            /\ acts = retry_trace (newRequest hec endpoint data) 0 more).
Proof.
  destruct (http_NewRequest_err (serverURL hec ++ endpoint)%string)
    as [err|] eqn:Hnew.
  - exists []. unfold write. rewrite write_RETRY_eq, Hnew, app_nil_r.
    auto.
  - unfold write.
    destruct (write_RETRY_shape (Z.to_nat (retries hec)) 0 w Hnew)
      as (more & _ & Hmax & Hw).
    exists (retry_trace (newRequest hec endpoint data) 0 more).
    split; [exact Hw|]. right. exists more. split; [lia|reflexivity].
Qed.

(** A call of [write] makes at most [hec.retries + 1] attempts, one when
    [hec.retries] is not positive: what it adds to the trace is nothing,
    when the request cannot be built, or attempts of the same request at
    the counters 0, 1, 2, ... with one wait of [retryWaitTime] between two
    of them. *)
Theorem write_attempts_bounded (w : World) :
  exists acts : World,
    snd (write hec endpoint data w) = w ++ acts
    /\ (acts = []
        \/ exists more : nat,
            Z.of_nat more <= Z.max 0 (retries hec)
            /\ acts = retry_trace (newRequest hec endpoint data) 0 more)
    /\ Z.of_nat (List.length (attempts acts)) <= Z.max 0 (retries hec) + 1
    /\ List.length (waits acts) = pred (List.length (attempts acts))
    /\ Forall (eq retryWaitTime) (waits acts)
    /\ Forall (eq data) (attempts acts).
Proof.
  destruct (write_adds w) as (acts & Hw & Hshape).
  exists acts. split; [exact Hw|]. split; [exact Hshape|].
  destruct Hshape as [->|(more & Hmore & ->)].
  - simpl. repeat split; auto. lia.
  - destruct (retry_trace_counts (newRequest hec endpoint data) more 0)
      as (Ha & Hs & Hb).
    rewrite Ha, Hs, repeat_length. repeat split; [lia| |exact Hb].
    apply Forall_forall. intros d Hd. now apply repeat_spec in Hd.
Qed.

(** The result of [write] is what the reply to its last attempt makes
    it: success on status 200 whatever the body says, the error of the
    transport, or the response that was not retried.  When the request
    cannot be built, [write] returns that error and attempts nothing. *)
Theorem write_result_of_last_reply (w : World) :
  match http_NewRequest_err (serverURL hec ++ endpoint)%string with
  | Some err => write hec endpoint data w = (Some (GoError err), w)
  | None =>
    exists (before : World) (count : Z),
      snd (write hec endpoint data w)
      = before ++ [Do count (newRequest hec endpoint data)]
      /\ fst (write hec endpoint data w)
         = verdict (httpClient hec before (newRequest hec endpoint data))
  end.
Proof.
  unfold write. generalize (Z.to_nat (retries hec)) as fuel.
  generalize 0 as count. intros count fuel. revert count w.
  destruct (http_NewRequest_err (serverURL hec ++ endpoint)%string)
    as [err|] eqn:Hnew; intros count w.
  - now rewrite write_RETRY_eq, Hnew.
  - revert count w.
    induction fuel as [|fuel IH]; intros count w;
      rewrite write_RETRY_eq, Hnew; cbv zeta;
      destruct (httpClient hec w _) as [err|code err|code body] eqn:Hreply;
      try (exists w, count; rewrite Hreply; split; reflexivity);
      destruct (code =? StatusOK) eqn:Hcode; cbn [negb];
      try (exists w, count; rewrite Hreply; simpl; rewrite Hcode;
           split; reflexivity);
      destruct (retriable _ && _);
      try (exists w, count; rewrite Hreply; simpl; rewrite Hcode;
           split; reflexivity).
    apply IH.
Qed.


End Retries.

(** ** Batch mode *)

Lemma total_len_nonneg (xs : list (list byte)) : 0 <= total_len xs.
Proof.
  induction xs as [|x xs IH]; simpl; [lia|].
  pose proof (len_nonneg x). lia.
Qed.

(** Pieces that fit together make one body. *)
Lemma chunks_fit (maxLength : Z) (items : list Item) :
  forall buffer : list byte,
    len buffer + total_len (pieces items) <= maxLength ->
    chunks maxLength items buffer
    = (if len (buffer ++ List.concat (pieces items)) >? 0
       then [buffer ++ List.concat (pieces items)] else []).
Proof.
  induction items as [|[| |piece] items IH]; intros buffer Hfit;
    cbn [chunks pieces] in *; auto.
  - cbn [List.concat]. now rewrite app_nil_r.
  - simpl in Hfit. pose proof (total_len_nonneg (pieces items)).
    destruct (Z.gtb_spec (len buffer + len piece) maxLength); [lia|].
    rewrite IH by (rewrite len_app; lia).
    cbn [List.concat]. now rewrite <- app_assoc.
Qed.

Lemma submit_None {P : Platform} (hec : Client) (endpoint : string)
    (bodies : list (list byte)) (over : list Z) (w : World) :
  fst (submit hec endpoint bodies over w) = None -> over = [].
Proof.
  unfold submit.
  destruct (deliver hec endpoint bodies w) as [[err|] w']; [discriminate|].
  now destruct over.
Qed.

Lemma submit_too_long {P : Platform} (hec : Client) (endpoint : string)
    (bodies : list (list byte)) (over : list Z) (w : World) (l : list Z) :
  fst (submit hec endpoint bodies over w) = Some (ErrEventTooLong l) ->
  l = over /\ l <> [].
Proof.
  unfold submit.
  destruct (deliver hec endpoint bodies w) as [[err|] w'] eqn:Hd.
  - simpl. intros [= ->].
    pose proof (deliver_fault hec endpoint bodies w (ErrEventTooLong l))
      as Hfault.
    rewrite Hd in Hfault. discriminate (Hfault eq_refl).
  - destruct over; [discriminate|]. simpl. intros [= <-].
    split; [reflexivity|discriminate].
Qed.

Section BatchMore.
Context {P : Platform}.

Lemma no_oversize_records (maxLength : Z) (events : list Event) :
  forall index : Z,
    oversize (map (record_item maxLength) events) index = [] ->
    filter (fun e => negb (empty e)
                     && (len (json_Marshal e) <=? maxLength)) events
    = filter (fun e => negb (empty e)) events.
Proof.
  induction events as [|event events IH]; intros index; [reflexivity|].
  cbn [map oversize filter]. unfold record_item at 1.
  destruct (empty event); cbn [negb andb]; [apply IH|].
  destruct (Z.gtb_spec (len (json_Marshal event)) maxLength);
    [discriminate|].
  destruct (Z.leb_spec (len (json_Marshal event)) maxLength); [|lia].
  intros Hrest. now rewrite (IH _ Hrest).
Qed.

(** In batch mode nothing is reordered and nothing is put between the
    records: when no transmission fails, the transmitted bodies, end to
    end, are the encodings, end to end, of the records that are non-empty
    and not longer than [maxLength]; and when the call returns success,
    these are all the non-empty records. *)
Theorem WriteBatch_keeps_order (hec : Client) (events : list Event)
    (w : World) :
  let call := WriteBatch hec events w in
  (reported (fst call) <> None ->
   List.concat (transmitted (since w (snd call)))
   = List.concat
       (map json_Marshal
          (filter (fun e => negb (empty e)
                            && (len (json_Marshal e) <=? maxLength hec))
             events)))
  /\ (fst call = None ->
      List.concat (transmitted (since w (snd call)))
      = List.concat
          (map json_Marshal (filter (fun e => negb (empty e)) events))).
Proof.
  cbv zeta.
  assert (Hkept :
            reported (fst (WriteBatch hec events w)) <> None ->
            List.concat (transmitted (since w (snd (WriteBatch hec events w))))
            = List.concat
                (map json_Marshal
                   (filter (fun e => negb (empty e)
                                     && (len (json_Marshal e)
                                         <=? maxLength hec)) events))).
  { rewrite WriteBatch_submit. intros Hok.
    destruct (submit_trace hec
                ("/services/collector?channel=" ++ channel hec)%string
                (chunks (maxLength hec)
                   (map (record_item (maxLength hec)) events) [])
                (oversize (map (record_item (maxLength hec)) events) 0) w)
      as (acts & Hw & _ & _ & Hall).
    rewrite Hw, since_app, (Hall Hok), chunks_concat.
    now rewrite pieces_records. }
  split; [exact Hkept|].
  intros Hnone. rewrite Hkept by (rewrite Hnone; discriminate).
  rewrite WriteBatch_submit in Hnone. apply submit_None in Hnone.
  now rewrite (no_oversize_records _ _ _ Hnone).
Qed.

(** A batch whose records fit together in [maxLength] goes out in one
    request body, the encodings end to end: no attempt carries anything
    else, and at most one body is transmitted. *)
Theorem WriteBatch_one_body (hec : Client) (events : list Event)
    (w : World) :
  let kept :=
    map json_Marshal
      (filter (fun e => negb (empty e)
                        && (len (json_Marshal e) <=? maxLength hec))
         events) in
  let acts := since w (snd (WriteBatch hec events w)) in
  total_len kept <= maxLength hec ->
  Forall (eq (List.concat kept)) (attempts acts)
  /\ (List.length (transmitted acts) <= 1)%nat
  /\ (reported (fst (WriteBatch hec events w)) <> None ->
      0 < total_len kept ->
      transmitted acts = [List.concat kept]).
Proof.
  cbv zeta. intros Hfit. rewrite WriteBatch_submit.
  rewrite <- pieces_records in *.
  pose proof (chunks_fit (maxLength hec)
                (map (record_item (maxLength hec)) events) [] Hfit)
    as Hbodies.
  cbn [app] in Hbodies.
  destruct (submit_trace hec
              ("/services/collector?channel=" ++ channel hec)%string
              (chunks (maxLength hec)
                 (map (record_item (maxLength hec)) events) [])
              (oversize (map (record_item (maxLength hec)) events) 0) w)
    as (acts & Hw & Hin & (k & Hk) & Hall).
  rewrite Hw, since_app.
  destruct (Z.gtb_spec
              (len (List.concat
                      (pieces (map (record_item (maxLength hec)) events))))
              0) as [Hpos|Hzero].
  - split; [|split].
    + eapply Forall_impl; [|exact Hin]. cbv beta. rewrite Hbodies.
      intros body [<-|[]]. reflexivity.
    + rewrite Hk, Hbodies. destruct k as [|[|k]]; simpl; lia.
    + intros Hok _. rewrite (Hall Hok). exact Hbodies.
  - split; [|split].
    + eapply Forall_impl; [|exact Hin]. cbv beta. rewrite Hbodies.
      intros body [].
    + rewrite Hk, Hbodies. destruct k; simpl; lia.
    + intros _ Hlen. rewrite total_len_concat in Hlen. lia.
Qed.

Lemma chunks_without_empty (maxLength : Z) (events : list Event) :
  forall buffer : list byte,
    chunks maxLength (map (record_item maxLength) events) buffer
    = chunks maxLength
        (map (record_item maxLength)
           (filter (fun e => negb (empty e)) events)) buffer.
Proof.
  induction events as [|event events IH]; intros buffer; [reflexivity|].
  cbn [map filter].
  pose proof (eq_refl (record_item maxLength event)) as Hitem.
  unfold record_item at 2 in Hitem.
  destruct (empty event); cbn [negb].
  - rewrite Hitem. cbn [chunks]. apply IH.
  - cbn [map]. destruct (record_item maxLength event) as [| |piece];
      cbn [chunks]; try apply IH.
    destruct (len buffer + len piece >? maxLength); now rewrite IH.
Qed.

Lemma oversize_without_empty (maxLength : Z) (events : list Event) :
  forall index index' : Z,
    List.length (oversize (map (record_item maxLength) events) index)
    = List.length
        (oversize
           (map (record_item maxLength)
              (filter (fun e => negb (empty e)) events)) index').
Proof.
  induction events as [|event events IH]; intros index index';
    [reflexivity|].
  cbn [map filter].
  pose proof (eq_refl (record_item maxLength event)) as Hitem.
  unfold record_item at 2 in Hitem.
  destruct (empty event); cbn [negb].
  - rewrite Hitem. cbn [oversize]. apply IH.
  - cbn [map]. destruct (record_item maxLength event) as [| |piece];
      cbn [oversize List.length]; auto.
Qed.

(** Empty records change nothing but the numbering: with them or without
    them a batch makes the same requests, and returns the same result up
    to the indexes of a too-long error, of which there are as many. *)
Theorem WriteBatch_ignores_empty (hec : Client) (events : list Event)
    (w : World) :
  let call := WriteBatch hec events w in
  let call' :=
    WriteBatch hec (filter (fun e => negb (empty e)) events) w in
  snd call = snd call'
  /\ match fst call, fst call' with
     | Some (ErrEventTooLong l), Some (ErrEventTooLong l') =>
       List.length l = List.length l'
     | result, result' => result = result'
     end.
Proof.
  cbv zeta. rewrite !WriteBatch_submit, <- chunks_without_empty.
  pose proof (oversize_without_empty (maxLength hec) events 0 0) as Hlen.
  unfold submit.
  destruct (deliver hec _ _ w) as [[err|] w'].
  - split; [reflexivity|]. now destruct err.
  - destruct (oversize (map (record_item (maxLength hec)) events) 0);
      destruct (oversize
                  (map (record_item (maxLength hec))
                     (filter (fun e => negb (empty e)) events)) 0);
      try discriminate; split; simpl; auto.
Qed.

End BatchMore.

(** ** The too-long error and its message *)

Lemma string_app_assoc (a b c : string) :
  ((a ++ b) ++ c)%string = (a ++ (b ++ c))%string.
Proof. induction a as [|ch a IH]; simpl; [reflexivity|]. now rewrite IH. Qed.

(** The message of an [ErrEventTooLong] ends in the words that callers
    look for, and it is the message without indexes exactly when the index
    list is nil. *)
Theorem Error_too_long (indexes : list Z) :
  (exists before : string,
      Error (ErrEventTooLong indexes) = (before ++ "too long")%string)
  /\ (Error (ErrEventTooLong indexes) = "Event length is too long"%string
      <-> indexes = []).
Proof.
  destruct indexes as [|index indexes].
  - split; [now exists "Event length is "%string|]. now split.
  - cbn [Error]. split.
    + exists ("Events ("
                ++ strings_Join (map strconv_Itoa (index :: indexes)) ", "
                ++ ") length are ")%string.
      rewrite !string_app_assoc. reflexivity.
    + split; [|discriminate]. simpl. discriminate.
Qed.

Section TooLong.
Context {P : Platform}.

(** Which call returns which too-long error: [WriteEvent] the one without
    indexes, [WriteBatch] and [WriteRaw] one with at least one index, whose
    message lists them. *)
Theorem too_long_indexes (hec : Client) (w : World) (l : list Z) :
  (forall event : Event,
      fst (WriteEvent hec event w) = Some (ErrEventTooLong l) -> l = [])
  /\ (forall events : list Event,
         fst (WriteBatch hec events w) = Some (ErrEventTooLong l) ->
         l <> [])
  /\ (forall (reader : list byte) (metadata : option EventMetadata),
         fst (WriteRaw hec reader metadata w) = Some (ErrEventTooLong l) ->
         l <> []).
Proof.
  split; [|split].
  - intros event. unfold WriteEvent. destruct (empty event); [discriminate|].
    cbv zeta. destruct (len (json_Marshal event) >? maxLength hec).
    + simpl. now intros [= <-].
    + intros Hw. apply write_fault in Hw. discriminate.
  - intros events. rewrite WriteBatch_submit. intros Hl.
    now apply submit_too_long in Hl.
  - intros reader metadata. rewrite WriteRaw_submit. intros Hl.
    now apply submit_too_long in Hl.
Qed.

(** ** The endpoint of raw mode *)

(** The endpoint of raw mode is the raw collector path with the channel,
    followed by a query that is empty or starts a new parameter; it is
    empty when there is no metadata and when no field of it is set. *)
Theorem rawHecEndpoint_query (channel : string)
    (metadata : option EventMetadata) :
  exists query : string,
    rawHecEndpoint channel metadata
    = (("/services/collector/raw?channel=" ++ channel) ++ query)%string
    /\ (query = ""%string
        \/ exists rest : string, query = ("&" ++ rest)%string)
    /\ (match metadata with
        | None => True
        | Some m =>
          Host m = None /\ Index m = None /\ Source m = None
          /\ SourceType m = None /\ Time m = None
        end -> query = ""%string).
Proof.
  assert (Hnil : forall s : string, (s ++ "")%string = s)
    by (induction s as [|c s IH]; simpl; [reflexivity|now rewrite IH]).
  assert (Hadd : forall (base query key : string) (v : option string),
             (query = ""%string \/ exists rest, query = ("&" ++ rest)%string) ->
             (exists rest, key = ("&" ++ rest)%string) ->
             exists query' : string,
               match v with
               | Some s => ((base ++ query) ++ key ++ s)%string
               | None => (base ++ query)%string
               end = (base ++ query')%string
               /\ (query' = ""%string
                   \/ exists rest, query' = ("&" ++ rest)%string)
               /\ (v = None -> query' = query)).
  { intros base query key [s|] Hquery (krest & ->).
    - exists (query ++ ("&" ++ krest) ++ s)%string.
      rewrite string_app_assoc. split; [reflexivity|].
      split; [|discriminate]. right.
      destruct Hquery as [->|(rest & ->)]; simpl; eauto.
    - exists query. auto. }
  destruct metadata as [m|]; unfold rawHecEndpoint.
  - cbv zeta.
    set (base := ("/services/collector/raw?channel=" ++ channel)%string).
    destruct (Hadd base ""%string "&host="%string (Host m)
                (or_introl eq_refl) (ex_intro _ "host="%string eq_refl))
      as (q1 & E1 & S1 & N1).
    rewrite Hnil in E1. rewrite E1.
    destruct (Hadd base q1 "&index="%string (Index m) S1
                (ex_intro _ "index="%string eq_refl))
      as (q2 & E2 & S2 & N2). rewrite E2.
    destruct (Hadd base q2 "&source="%string (Source m) S2
                (ex_intro _ "source="%string eq_refl))
      as (q3 & E3 & S3 & N3). rewrite E3.
    destruct (Hadd base q3 "&sourcetype="%string (SourceType m) S3
                (ex_intro _ "sourcetype="%string eq_refl))
      as (q4 & E4 & S4 & N4). rewrite E4.
    destruct (Hadd base q4 "&time="%string
                (option_map epochTime (Time m)) S4
                (ex_intro _ "time="%string eq_refl))
      as (q5 & E5 & S5 & N5). rewrite E5.
    exists q5. split; [reflexivity|]. split; [exact S5|].
    intros (H1 & H2 & H3 & H4 & H5).
    rewrite N5, N4, N3, N2, N1; auto. now rewrite H5.
  - exists ""%string. rewrite Hnil. auto.
Qed.

End TooLong.

(** ** Raw mode *)

(** Pieces of at most [maxLength + 1] bytes make bodies of at most
    [maxLength + 1] bytes. *)
Lemma chunks_bound_slack (maxLength : Z) (items : list Item) :
  Forall (fun piece => len piece <= maxLength + 1) (pieces items) ->
  forall buffer : list byte,
    buffer = [] \/ len buffer <= maxLength + 1 ->
    Forall (fun body => len body <= maxLength + 1)
      (chunks maxLength items buffer).
Proof.
  induction items as [|[| |piece] items IH]; intros Hitems buffer Hbuffer;
    simpl in *; auto.
  - destruct (Z.gtb_spec (len buffer) 0) as [Hb|Hb]; constructor; auto.
    destruct Hbuffer as [->|Hbuffer]; [discriminate Hb|lia].
  - inversion Hitems as [|? ? Hpiece Hrest]; subst.
    pose proof (len_nonneg piece).
    destruct (Z.gtb_spec (len buffer + len piece) maxLength) as [Hsum|Hsum].
    + constructor.
      * destruct Hbuffer as [->|Hbuffer]; [|lia].
        unfold len in *. cbn [List.length] in *. lia.
      * apply IH; [assumption|]. now right.
    + apply IH; [assumption|]. right. rewrite len_app. lia.
Qed.

(** Lines that end in the input are handed over, with one carriage
    return before the line feed dropped. *)
Lemma Scan_from_raw (raw : list byte) :
  forall (rest acc : list byte) (n : Z),
    Forall (fun b => b <> "010"%byte) raw ->
    n = len acc -> n + len raw < bufio.MaxScanTokenSize ->
    bufio.Scan_from (raw ++ "010"%byte :: rest) acc n
    = bufio.dropCR (rev acc ++ raw) :: bufio.Scan_from rest [] 0.
Proof.
  induction raw as [|b raw IH]; intros rest acc n Hraw Hn Hfit.
  - simpl. now rewrite rev_append_rev, !app_nil_r.
  - inversion Hraw as [|? ? Hb Hrest]; subst.
    cbn [app bufio.Scan_from].
    destruct (Byte.eqb b "010") eqn:Heq;
      [apply Byte.byte_dec_bl in Heq; now elim Hb|].
    unfold len in Hfit. cbn [List.length] in Hfit.
    destruct (Z.ltb_spec (len acc + 1) bufio.MaxScanTokenSize) as [_|Hbad];
      [|unfold len in Hbad; lia].
    rewrite IH; auto.
    + simpl. now rewrite <- app_assoc.
    + unfold len. cbn [List.length]. lia.
    + unfold len. lia.
Qed.

Lemma dropCR_CR (line : list byte) :
  bufio.dropCR (line ++ ["013"%byte]) = line.
Proof.
  unfold bufio.dropCR.
  rewrite rev_append_rev, app_nil_r, rev_app_distr. simpl.
  now rewrite rev_append_rev, app_nil_r, rev_involutive.
Qed.

(** The scanner gives up on a line of which [MaxScanTokenSize] bytes have
    come and no line feed: nothing that follows is handed over. *)
Lemma Scan_from_long (long : list byte) :
  forall (rest acc : list byte) (n : Z),
    Forall (fun b => b <> "010"%byte) long ->
    n < bufio.MaxScanTokenSize ->
    bufio.MaxScanTokenSize <= n + len long ->
    bufio.Scan_from (long ++ rest) acc n = [].
Proof.
  induction long as [|b long IH]; intros rest acc n Hlong Hn Hfull.
  - unfold len in Hfull. simpl in Hfull. lia.
  - inversion Hlong as [|? ? Hb Hrest]; subst.
    cbn [app bufio.Scan_from].
    destruct (Byte.eqb b "010") eqn:Heq;
      [apply Byte.byte_dec_bl in Heq; now elim Hb|].
    destruct (Z.ltb_spec (n + 1) bufio.MaxScanTokenSize) as [Hlt|_];
      [|reflexivity].
    apply IH; auto. unfold len in *. cbn [List.length] in Hfull. lia.
Qed.

Lemma Scanner_tokens_lines (ending : list byte) (lines : list (list byte))
    (rest : list byte) :
  Forall (fun b => b <> "010"%byte) ending ->
  Forall (fun line =>
            Forall (fun b => b <> "010"%byte) line
            /\ len line + len ending < bufio.MaxScanTokenSize
            /\ bufio.dropCR (line ++ ending) = line) lines ->
  bufio.Scan_from
    (List.concat (map (fun line => line ++ ending ++ ["010"%byte]) lines)
       ++ rest) [] 0
  = lines ++ bufio.Scan_from rest [] 0.
Proof.
  intros Hending Hlines.
  induction Hlines as [|line lines (Hline & Hlen & Hdrop) _ IH];
    [reflexivity|].
  cbn [map List.concat].
  replace (((line ++ ending ++ ["010"%byte]) ++ _) ++ rest)
    with ((line ++ ending) ++ "010"%byte
            :: (List.concat
                  (map (fun line => line ++ ending ++ ["010"%byte]) lines)
                  ++ rest))
    by (now rewrite <- !app_assoc).
  rewrite Scan_from_raw.
  - simpl. now rewrite Hdrop, IH.
  - apply Forall_app. now split.
  - reflexivity.
  - rewrite len_app. simpl. lia.
Qed.

Lemma Scanner_tokens_terminated (lines : list (list byte)) (rest : list byte) :
  Forall plain lines ->
  bufio.Scanner_tokens (List.concat (map terminated lines) ++ rest)
  = lines ++ bufio.Scanner_tokens rest.
Proof.
  intros Hplain. unfold bufio.Scanner_tokens.
  rewrite <- (Scanner_tokens_lines [] lines rest); [reflexivity|constructor|].
  eapply Forall_impl; [|exact Hplain]. cbv beta. intros line [Hline Hlen].
  rewrite app_nil_r. change (len []) with 0.
  split; [|split; [lia|now apply dropCR_plain]].
  eapply Forall_impl; [|exact Hline]. cbv beta. now intros b [Hb _].
Qed.

Section RawMore.
Context {P : Platform}.

(** In raw mode no request body is longer than [maxLength + 1] bytes;
    and when no line of the input has exactly [maxLength] bytes, every
    request body is non-empty and at most [maxLength] bytes long. *)
Theorem WriteRaw_bodies_bound (hec : Client) (reader : list byte)
    (metadata : option EventMetadata) (w : World) :
  let acts := since w (snd (WriteRaw hec reader metadata w)) in
  Forall (fun body => len body <= maxLength hec + 1) (attempts acts)
  /\ (Forall (fun line => len line <> maxLength hec)
        (bufio.Scanner_tokens reader) ->
      Forall (fun body => 0 < len body <= maxLength hec) (attempts acts)).
Proof.
  cbv zeta. rewrite WriteRaw_submit.
  destruct (submit_trace hec (rawHecEndpoint (channel hec) metadata)
              (chunks (maxLength hec)
                 (map (line_item (maxLength hec))
                    (bufio.Scanner_tokens reader)) [])
              (oversize (map (line_item (maxLength hec))
                           (bufio.Scanner_tokens reader)) 1) w)
    as (acts & -> & Hin & _).
  rewrite since_app. split.
  - eapply Forall_impl; [|exact Hin]. cbv beta. intros body Hbody.
    revert body Hbody. apply Forall_forall.
    apply chunks_bound_slack; [|now left].
    rewrite pieces_lines. apply Forall_forall. intros piece Hpiece.
    apply in_map_iff in Hpiece. destruct Hpiece as (line & <- & Hline).
    apply filter_In in Hline. destruct Hline as [_ Hlen].
    apply Z.leb_le in Hlen. unfold terminated. rewrite len_app.
    change (len ["010"%byte]) with 1. lia.
  - intros Hexact.
    eapply Forall_impl; [|exact Hin]. cbv beta. intros body Hbody.
    revert body Hbody. apply Forall_forall.
    apply chunks_bound; [|now left].
    rewrite pieces_lines. apply Forall_forall. intros piece Hpiece.
    apply in_map_iff in Hpiece. destruct Hpiece as (line & <- & Hline).
    apply filter_In in Hline. destruct Hline as [Hline Hlen].
    apply Z.leb_le in Hlen. rewrite Forall_forall in Hexact.
    specialize (Hexact line Hline).
    unfold terminated. rewrite len_app.
    change (len ["010"%byte]) with 1. lia.
Qed.

Lemma WriteRaw_bytes (hec : Client) (reader : list byte)
    (metadata : option EventMetadata) (w : World) :
  reported (fst (WriteRaw hec reader metadata w)) <> None ->
  List.concat (transmitted (since w (snd (WriteRaw hec reader metadata w))))
  = List.concat
      (map terminated
         (filter (fun line => len line <=? maxLength hec)
            (bufio.Scanner_tokens reader))).
Proof.
  rewrite WriteRaw_submit. intros Hok.
  destruct (submit_trace hec (rawHecEndpoint (channel hec) metadata)
              (chunks (maxLength hec)
                 (map (line_item (maxLength hec))
                    (bufio.Scanner_tokens reader)) [])
              (oversize (map (line_item (maxLength hec))
                           (bufio.Scanner_tokens reader)) 1) w)
    as (acts & Hw & _ & _ & Hall).
  rewrite Hw, since_app, (Hall Hok), chunks_concat, pieces_lines.
  reflexivity.
Qed.

Lemma filter_fits (maxLength : Z) (lines : list (list byte)) :
  Forall (fun line => len line <= maxLength) lines ->
  filter (fun line => len line <=? maxLength) lines = lines.
Proof.
  intros Hfit. apply forallb_filter_id. apply forallb_forall.
  intros line Hline. rewrite Forall_forall in Hfit.
  apply Z.leb_le. now apply Hfit.
Qed.

(** An input of plain lines that all end in a line feed and are not
    longer than [maxLength] passes through unchanged: when no
    transmission fails, the transmitted bodies, end to end, are the
    input. *)
Theorem WriteRaw_passes_terminated_input (hec : Client)
    (lines : list (list byte)) (metadata : option EventMetadata)
    (w : World) :
  let reader := List.concat (map terminated lines) in
  let call := WriteRaw hec reader metadata w in
  Forall plain lines ->
  Forall (fun line => len line <= maxLength hec) lines ->
  reported (fst call) <> None ->
  List.concat (transmitted (since w (snd call))) = reader.
Proof.
  cbv zeta. intros Hplain Hfit Hok. rewrite (WriteRaw_bytes _ _ _ _ Hok).
  pose proof (Scanner_tokens_terminated lines [] Hplain) as Htokens.
  rewrite !app_nil_r in Htokens. rewrite Htokens.
  now rewrite filter_fits.
Qed.

(** Lines that end in a carriage return and a line feed go out with the
    line feed alone: when each line fits the buffer of the scanner
    together with its carriage return, no line is longer than [maxLength]
    and no transmission fails, the transmitted bodies, end to end, are the
    lines each followed by one line feed. *)
Theorem WriteRaw_drops_carriage_returns (hec : Client)
    (lines : list (list byte)) (metadata : option EventMetadata)
    (w : World) :
  let reader :=
    List.concat
      (map (fun line => line ++ ["013"%byte; "010"%byte]) lines) in
  let call := WriteRaw hec reader metadata w in
  Forall (fun line =>
            Forall (fun b => b <> "010"%byte) line
            /\ len line + 1 < bufio.MaxScanTokenSize) lines ->
  Forall (fun line => len line <= maxLength hec) lines ->
  reported (fst call) <> None ->
  List.concat (transmitted (since w (snd call)))
  = List.concat (map terminated lines).
Proof.
  cbv zeta. intros Hlines Hfit Hok. rewrite (WriteRaw_bytes _ _ _ _ Hok).
  assert (Htokens :
            bufio.Scanner_tokens
              (List.concat
                 (map (fun line => line ++ ["013"%byte; "010"%byte]) lines))
            = lines).
  { unfold bufio.Scanner_tokens.
    pose proof (Scanner_tokens_lines ["013"%byte] lines []) as Hscan.
    rewrite !app_nil_r in Hscan. apply Hscan.
    - repeat constructor. discriminate.
    - eapply Forall_impl; [|exact Hlines]. cbv beta.
      intros line [Hline Hlen]. split; [exact Hline|].
      split; [exact Hlen|apply dropCR_CR]. }
  rewrite Htokens. now rewrite filter_fits.
Qed.

(** A line of which 64 KiB have come without a line feed ends the input
    for [WriteRaw]: the call is the call on the lines before it.  The
    long line is not reported and nothing after it is looked at. *)
Theorem WriteRaw_stops_at_long_line (hec : Client)
    (lines : list (list byte)) (long rest : list byte)
    (metadata : option EventMetadata) (w : World) :
  Forall plain lines ->
  Forall (fun b => b <> "010"%byte) long ->
  bufio.MaxScanTokenSize <= len long ->
  WriteRaw hec (List.concat (map terminated lines) ++ long ++ rest)
    metadata w
  = WriteRaw hec (List.concat (map terminated lines)) metadata w.
Proof.
  intros Hplain Hlong Hfull. unfold WriteRaw. cbv zeta.
  rewrite Scanner_tokens_terminated by exact Hplain.
  pose proof (Scanner_tokens_terminated lines [] Hplain) as Htokens.
  rewrite !app_nil_r in Htokens. rewrite Htokens.
  unfold bufio.Scanner_tokens.
  rewrite Scan_from_long; [now rewrite app_nil_r|exact Hlong| |].
  - unfold bufio.MaxScanTokenSize. lia.
  - change (len []) with 0 in *. lia.
Qed.

End RawMore.

(** ** The earlier client and the cluster *)

Lemma len_le_total (x : list byte) (xs : list (list byte)) :
  In x xs -> len x <= total_len xs.
Proof.
  induction xs as [|y xs IH]; simpl; [tauto|].
  pose proof (len_nonneg y). pose proof (total_len_nonneg xs).
  intros [->|Hin]; [lia|]. specialize (IH Hin). lia.
Qed.

Lemma pieces_Fits {A : Type} (f : A -> list byte) (xs : list A) :
  pieces (map (fun x => Fits (f x)) xs) = map f xs.
Proof. induction xs as [|x xs IH]; simpl; [reflexivity|now rewrite IH]. Qed.

Lemma oversize_Fits {A : Type} (f : A -> list byte) (xs : list A) :
  forall index : Z, oversize (map (fun x => Fits (f x)) xs) index = [].
Proof. induction xs as [|x xs IH]; intros index; simpl; auto. Qed.

Lemma submit_one {P : Platform} (hec : Client) (endpoint : string)
    (body : list byte) (w : World) :
  submit hec endpoint [body] [] w = write hec endpoint body w.
Proof.
  unfold submit. cbn [deliver].
  now destruct (write hec endpoint body w) as [[err|] w'].
Qed.

Section EarlierClient.
Context {P : Platform}.

Lemma Earlier_buffer (events : list Event) :
  forall buffer : list byte,
    fold_left (fun buffer event => buffer ++ json_Marshal event) events
      buffer
    = buffer ++ List.concat (map json_Marshal events).
Proof.
  induction events as [|event events IH]; intros buffer; simpl.
  - now rewrite app_nil_r.
  - now rewrite IH, app_assoc.
Qed.

(** The client that bounds the content length does what the earlier one
    did whenever a submission is neither empty nor too long for one body:
    the same result, the same requests. *)
Theorem bounded_client_agrees_with_earlier (hec : Client) (w : World) :
  (forall event : Event,
      empty event = false ->
      len (json_Marshal event) <= maxLength hec ->
      WriteEvent hec event w = Earlier.WriteEvent hec event w)
  /\ (forall events : list Event,
         forallb (fun e => negb (empty e)) events = true ->
         0 < total_len (map json_Marshal events) <= maxLength hec ->
         WriteBatch hec events w = Earlier.WriteBatch hec events w)
  /\ (forall (lines : list (list byte)) (metadata : option EventMetadata),
         let reader := List.concat (map terminated lines) in
         Forall plain lines ->
         0 < len reader <= maxLength hec ->
         WriteRaw hec reader metadata w
         = Earlier.WriteRaw hec reader metadata w).
Proof.
  split; [|split].
  - intros event Hempty Hfit. unfold WriteEvent, Earlier.WriteEvent.
    rewrite Hempty. cbv zeta.
    destruct (Z.gtb_spec (len (json_Marshal event)) (maxLength hec));
      [lia|reflexivity].
  - intros events Hall [Hpos Hfit]. rewrite WriteBatch_submit.
    unfold Earlier.WriteBatch. cbv zeta. rewrite Earlier_buffer. cbn [app].
    assert (Hitems : map (record_item (maxLength hec)) events
                     = map (fun e => Fits (json_Marshal e)) events).
    { apply map_ext_in. intros e He. unfold record_item.
      rewrite forallb_forall in Hall. specialize (Hall e He).
      apply negb_true_iff in Hall. rewrite Hall.
      pose proof (len_le_total (json_Marshal e) (map json_Marshal events)
                    (in_map json_Marshal events e He)).
      destruct (Z.gtb_spec (len (json_Marshal e)) (maxLength hec));
        [lia|reflexivity]. }
    rewrite Hitems, oversize_Fits, chunks_fit;
      rewrite pieces_Fits; [|simpl; lia].
    cbn [app]. rewrite <- total_len_concat.
    destruct (Z.gtb_spec (total_len (map json_Marshal events)) 0); [|lia].
    apply submit_one.
  - intros lines metadata reader Hplain [Hpos Hfit]. subst reader.
    rewrite WriteRaw_submit. unfold Earlier.WriteRaw. cbv zeta.
    pose proof (Scanner_tokens_terminated lines [] Hplain) as Htokens.
    rewrite !app_nil_r in Htokens. rewrite Htokens.
    rewrite <- total_len_concat in Hpos, Hfit.
    assert (Hitems : map (line_item (maxLength hec)) lines
                     = map (fun line => Fits (terminated line)) lines).
    { apply map_ext_in. intros line Hline. unfold line_item.
      pose proof (len_le_total (terminated line) (map terminated lines)
                    (in_map terminated lines line Hline)) as Hle.
      unfold terminated in Hle at 1. rewrite len_app in Hle.
      change (len ["010"%byte]) with 1 in Hle.
      destruct (Z.gtb_spec (len line) (maxLength hec)); [lia|reflexivity]. }
    rewrite Hitems, oversize_Fits, chunks_fit;
      rewrite pieces_Fits; [|simpl; lia].
    cbn [app]. rewrite <- total_len_concat.
    destruct (Z.gtb_spec (total_len (map terminated lines)) 0); [|lia].
    apply submit_one.
Qed.

(** The earlier [WriteBatch] makes one body of all encodings, empty
    records included, and hands it to [write] even when there is no
    record at all: it then attempts a request with an empty body, where
    the bounded client returns at once. *)
Theorem Earlier_WriteBatch_one_write (hec : Client) (events : list Event)
    (w : World) :
  Earlier.WriteBatch hec events w
  = write hec ("/services/collector?channel=" ++ channel hec)%string
      (List.concat (map json_Marshal events)) w
  /\ Forall (eq (List.concat (map json_Marshal events)))
       (attempts (since w (snd (Earlier.WriteBatch hec events w))))
  /\ (http_NewRequest_err
        (serverURL hec ++ "/services/collector?channel=" ++ channel hec)%string
      = None ->
      attempts (since w (snd (Earlier.WriteBatch hec [] w))) <> []
      /\ WriteBatch hec [] w = (None, w)).
Proof.
  unfold Earlier.WriteBatch. cbv zeta. rewrite Earlier_buffer. cbn [app].
  split; [reflexivity|]. split.
  - destruct (write_trace hec
                ("/services/collector?channel=" ++ channel hec)%string
                (List.concat (map json_Marshal events)) w)
      as (acts & -> & Hb & _).
    now rewrite since_app.
  - intros Hnew. split; [|reflexivity].
    destruct (write_RETRY_trace hec
                ("/services/collector?channel=" ++ channel hec)%string
                [] (Z.to_nat (retries hec)) 0 w) as (acts & Hw & _ & _ & Ht);
      [lia|].
    rewrite Hnew in Ht. destruct Ht as [_ (rest & ->)].
    cbn [fold_left]. unfold write. rewrite Hw, since_app. discriminate.
Qed.

End EarlierClient.

Lemma pick_nth (rand_Int : Z) (c : Client) (clients : list Client) :
  0 <= rand_Int ->
  exists k : nat,
    (k < List.length (c :: clients))%nat
    /\ cluster.pick rand_Int (c :: clients) = nth_error (c :: clients) k.
Proof.
  intros Hrand. unfold cluster.pick.
  destruct (Z.eqb_spec (Z.of_nat (List.length (c :: clients))) 0)
    as [Hzero|_]; [cbn [List.length] in Hzero; lia|].
  eexists. split; [|reflexivity].
  pose proof (Z.rem_bound_pos rand_Int
                (Z.of_nat (List.length (c :: clients))) Hrand) as Hrem.
  cbn [List.length] in *. lia.
Qed.

(** [pick] panics exactly on a cluster without clients, and otherwise
    returns one of the clients of the cluster. *)
Theorem pick_one_of_the_clients (rand_Int : Z) (clients : list Client) :
  0 <= rand_Int ->
  (cluster.pick rand_Int clients = None <-> clients = [])
  /\ (forall client : Client,
         cluster.pick rand_Int clients = Some client -> In client clients).
Proof.
  intros Hrand. destruct clients as [|c clients]; [now split|].
  destruct (pick_nth rand_Int c clients Hrand) as (k & Hk & ->).
  split.
  - split; [|discriminate]. intros Hnone.
    apply nth_error_None in Hnone. lia.
  - intros client Hpick. eapply nth_error_In. exact Hpick.
Qed.

(** The setters of the cluster reach every client and leave the choice of
    [pick] alone: the client picked after a setter is the client picked
    before it, with the setter applied. *)
Theorem cluster_setters_reach_the_picked_client (c : cluster.Cluster)
    (rand_Int : Z) :
  (forall channel : string,
      cluster.pick rand_Int (cluster.clients (cluster.SetChannel c channel))
      = option_map (fun client => SetChannel client channel)
          (cluster.pick rand_Int (cluster.clients c)))
  /\ (forall enable : bool,
         cluster.pick rand_Int
           (cluster.clients (cluster.SetKeepAlive c enable))
         = option_map (fun client => SetKeepAlive client enable)
             (cluster.pick rand_Int (cluster.clients c)))
  /\ (forall http : World -> Request -> Reply,
         cluster.pick rand_Int
           (cluster.clients (cluster.SetHTTPClient c http))
         = option_map (fun client => SetHTTPClient client http)
             (cluster.pick rand_Int (cluster.clients c))).
Proof.
  assert (Hmap : forall (f : Client -> Client) (clients : list Client),
             cluster.pick rand_Int (map f clients)
             = option_map f (cluster.pick rand_Int clients)).
  { intros f clients. unfold cluster.pick. rewrite length_map.
    destruct (Z.of_nat (List.length clients) =? 0); [reflexivity|].
    apply nth_error_map. }
  repeat split; intros; apply Hmap.
Qed.

Section ClusterWrites.
Context {P : Platform}.

(** A cluster from [NewCluster] never retries.  [WriteEvent] on it panics
    when the cluster was made of no URL; otherwise it attempts at most one
    request, to one of the URLs, with the channel and the token of the
    cluster and the encoded event as the body, and does not wait. *)
Theorem NewCluster_never_retries (http : World -> Request -> Reply)
    (serverURLs : list string) (token uuid : string) (rand_Int : Z)
    (event : Event) (w : World) :
  0 <= rand_Int ->
  match cluster.WriteEvent (cluster.NewCluster http serverURLs token uuid)
          rand_Int event w with
  | None => serverURLs = []
  | Some (_, w') =>
    exists serverURL : string,
      In serverURL serverURLs
      /\ (w' = w
          \/ w' = w ++ [Do 0 {| URL := (serverURL
                                          ++ "/services/collector?channel="
                                          ++ uuid)%string;
                                Connection := Some "keep-alive"%string;
                                Authorization := ("Splunk " ++ token)%string;
                                Body := json_Marshal event |}])
  end.
Proof.
  intros Hrand. unfold cluster.WriteEvent.
  destruct serverURLs as [|url0 urls]; [reflexivity|].
  cbn [cluster.NewCluster cluster.clients map].
  match goal with
  | |- context [cluster.pick rand_Int (?c :: ?cs)] =>
    destruct (pick_nth rand_Int c cs Hrand) as (k & Hk & ->);
    destruct (nth_error (c :: cs) k) as [client|] eqn:Hclient;
    [|apply nth_error_None in Hclient; lia];
    change (c :: cs)
      with (map (fun serverURL =>
                   {| httpClient := http; serverURL := serverURL;
                      token := token; keepAlive := true; channel := uuid;
                      retries := 0; maxLength := 0 |}) (url0 :: urls))
      in Hclient
  end.
  apply nth_error_In, in_map_iff in Hclient.
  destruct Hclient as (url & <- & Hurl).
  unfold Earlier.WriteEvent. cbv zeta. cbn [channel].
  match goal with
  | |- context [write ?c ?e ?d w] =>
    destruct (write_adds c e d w) as (acts & Hw & Hshape);
    destruct (write c e d w) as [result w']
  end.
  cbn [snd] in Hw. subst w'. exists url. split; [exact Hurl|].
  destruct Hshape as [->|(more & Hmore & ->)];
    [left; now rewrite app_nil_r|].
  right. cbn [retries] in Hmore.
  replace more with 0%nat by lia. reflexivity.
Qed.

End ClusterWrites.

(** ** The chunker is greedy *)

Lemma chunks_greedy (maxLength : Z) (items : list Item) :
  forall buffer : list byte,
    no_two_fit maxLength (chunks maxLength items buffer)
    /\ match chunks maxLength items buffer with
       | first :: _ => len buffer <= len first
       | [] => True
       end.
Proof.
  induction items as [|[| |piece] items IH]; intros buffer;
    cbn [chunks]; auto.
  - destruct (len buffer >? 0); simpl; split; auto; lia.
  - destruct (Z.gtb_spec (len buffer + len piece) maxLength) as [Hsum|Hsum].
    + destruct (IH piece) as [Hrest Hfirst]. split; [|lia].
      cbn [no_two_fit].
      destruct (chunks maxLength items piece) as [|next rest]; [trivial|].
      split; [lia|exact Hrest].
    + destruct (IH (buffer ++ piece)) as [Hrest Hfirst].
      split; [exact Hrest|].
      destruct (chunks maxLength items (buffer ++ piece)); [trivial|].
      rewrite len_app in Hfirst. pose proof (len_nonneg piece). lia.
Qed.

Lemma no_two_fit_firstn (maxLength : Z) (bodies : list (list byte)) :
  forall k : nat,
    no_two_fit maxLength bodies -> no_two_fit maxLength (firstn k bodies).
Proof.
  induction bodies as [|body [|next rest] IH]; intros k Hbodies.
  - now rewrite firstn_nil.
  - destruct k as [|[|k]]; exact I.
  - destruct k as [|[|k]]; try exact I.
    destruct Hbodies as [Hsum Hrest].
    change (firstn (S (S k)) (body :: next :: rest))
      with (body :: firstn (S k) (next :: rest)).
    specialize (IH (S k) Hrest).
    change (firstn (S k) (next :: rest)) with (next :: firstn k rest) in *.
    split; [exact Hsum|exact IH].
Qed.

Lemma tokens_fit_the_buffer (data : list byte) :
  forall (line : list byte) (n : Z),
    n = len line -> n < bufio.MaxScanTokenSize ->
    Forall (fun token => len token < bufio.MaxScanTokenSize)
      (bufio.Scan_from data line n).
Proof.
  assert (Hdrop : forall line : list byte,
             len (bufio.dropCR (rev_append line [])) <= len line).
  { intros line. unfold bufio.dropCR.
    rewrite !rev_append_rev, !app_nil_r, rev_involutive.
    destruct line as [|c line]; [simpl; lia|].
    destruct (Byte.eqb c "013").
    - rewrite rev_append_rev, app_nil_r. unfold len.
      rewrite length_rev. cbn [List.length]. lia.
    - unfold len. rewrite length_rev. lia. }
  induction data as [|b data IH]; intros line n Hn Hfit;
    cbn [bufio.Scan_from].
  - destruct line as [|c line]; constructor; [|constructor].
    pose proof (Hdrop (c :: line)). lia.
  - destruct (Byte.eqb b "010").
    + constructor; [pose proof (Hdrop line); lia|].
      apply IH; [reflexivity|unfold bufio.MaxScanTokenSize; lia].
    + destruct (Z.ltb_spec (n + 1) bufio.MaxScanTokenSize) as [Hlt|_];
        [|constructor].
      apply IH; [|exact Hlt]. unfold len in *. cbn [List.length]. lia.
Qed.

Section Greedy.
Context {P : Platform}.

(** Both modes pack greedily: of the bodies that a call transmits, no two
    consecutive ones would have fitted in a single body of [maxLength]
    bytes. *)
Theorem transmitted_bodies_are_packed (hec : Client) (w : World) :
  (forall events : list Event,
      no_two_fit (maxLength hec)
        (transmitted (since w (snd (WriteBatch hec events w)))))
  /\ (forall (reader : list byte) (metadata : option EventMetadata),
         no_two_fit (maxLength hec)
           (transmitted (since w (snd (WriteRaw hec reader metadata w))))).
Proof.
  split.
  - intros events. rewrite WriteBatch_submit.
    destruct (submit_trace hec
                ("/services/collector?channel=" ++ channel hec)%string
                (chunks (maxLength hec)
                   (map (record_item (maxLength hec)) events) [])
                (oversize (map (record_item (maxLength hec)) events) 0) w)
      as (acts & -> & _ & (k & Hk) & _).
    rewrite since_app, Hk. apply no_two_fit_firstn. apply chunks_greedy.
  - intros reader metadata. rewrite WriteRaw_submit.
    destruct (submit_trace hec (rawHecEndpoint (channel hec) metadata)
                (chunks (maxLength hec)
                   (map (line_item (maxLength hec))
                      (bufio.Scanner_tokens reader)) [])
                (oversize (map (line_item (maxLength hec))
                             (bufio.Scanner_tokens reader)) 1) w)
      as (acts & -> & _ & (k & Hk) & _).
    rewrite since_app, Hk. apply no_two_fit_firstn. apply chunks_greedy.
Qed.

(** With [maxLength] at 65535 or more, the default of 1000000 included,
    [WriteRaw] never returns a too-long error: the scanner hands over no
    line that long. *)
Theorem WriteRaw_never_reports_beyond_the_buffer (hec : Client)
    (reader : list byte) (metadata : option EventMetadata) (w : World)
    (l : list Z) :
  bufio.MaxScanTokenSize - 1 <= maxLength hec ->
  fst (WriteRaw hec reader metadata w) <> Some (ErrEventTooLong l).
Proof.
  intros Hmax Hl. rewrite WriteRaw_submit in Hl.
  apply submit_too_long in Hl. destruct Hl as [-> Hne]. apply Hne.
  clear Hne.
  pose proof (tokens_fit_the_buffer reader [] 0 eq_refl eq_refl) as Hfit.
  fold (bufio.Scanner_tokens reader) in Hfit.
  generalize 1 as index.
  induction Hfit as [|token tokens Htoken _ IH]; intros index;
    [reflexivity|].
  cbn [map oversize]. unfold line_item at 1.
  destruct (Z.gtb_spec (len token) (maxLength hec)); [lia|]. apply IH.
Qed.

End Greedy.

(** ** The claims on the test double *)

#[local] Existing Instance Double.platform.

(** C1 at [maxLength = 14] on two lines of 14 bytes.  The first line is not
    oversize, yet with its terminator it does not fit: the buffer, still
    empty, is sent, and the line goes out later in a body of 15 bytes. *)
Theorem WriteRaw_body_exceeds_maxLength :
  let call :=
    WriteRaw (Double.client Double.accept 14) Double.text None [] in
  fst call = None
  /\ attempts (snd call)
     = [[]; terminated Double.lineA; terminated Double.lineB]
  /\ map len (attempts (snd call)) = [0; 15; 15].
Proof. vm_compute. repeat split. Qed.

(** C2 as stated fails when a transmission fails: of two records of 21
    bytes each, only the first is emitted when the connection is refused,
    21 bytes where the claim has 42. *)
Lemma WriteBatch_total_length_fails_on_fault :
  let hec := Double.client Double.refuse 25 in
  let events := [Double.event "event one"; Double.event "event two"] in
  let emitted :=
    total_len (transmitted (since [] (snd (WriteBatch hec events [])))) in
  let encoded :=
    total_len
      (map json_Marshal
         (filter (fun e => negb (empty e)
                           && (len (json_Marshal e) <=? maxLength hec))
            events)) in
  emitted = 21 /\ encoded = 42 /\ emitted <> encoded.
Proof. vm_compute. repeat split. discriminate. Qed.

(** C2 (amended) on two records of 21 bytes that are both accepted. *)
Lemma WriteBatch_total_length_witness :
  let hec := Double.client Double.accept 25 in
  let events := [Double.event "event one"; Double.event "event two"] in
  reported (fst (WriteBatch hec events [])) <> None
  /\ total_len (transmitted (since [] (snd (WriteBatch hec events []))))
     = total_len
         (map json_Marshal
            (filter (fun e => negb (empty e)
                              && (len (json_Marshal e) <=? maxLength hec))
               events)).
Proof.
  cbv zeta. split; [vm_compute; discriminate|].
  apply (WriteBatch_total_length (P := Double.platform)).
  vm_compute. discriminate.
Defined.

(** C3 as stated fails on an empty record.  The encoding of a record is a
    JSON object, two bytes at the least (twelve here), which is more than
    [maxLength = 1]; the record is skipped before its length is looked at,
    and position 0 is not reported. *)
Lemma WriteBatch_skips_long_empty_record :
  let hec := Double.client Double.accept 1 in
  let events := [Double.event ""] in
  exists l : list Z,
    reported (fst (WriteBatch hec events [])) = Some l
    /\ ~ lists_positions
           (fun e => len (json_Marshal e) > maxLength hec) 0 events l.
Proof.
  cbv zeta. exists []. split; [reflexivity|].
  intros [Hpos _]. apply (Hpos 0).
  exists 0%nat, (Double.event ""). repeat split.
Qed.

(** C4 on a first line of 70000 bytes with [maxLength = 100]: the scanner
    gives up on it, the loop body never runs, and the call returns success
    with nothing reported and nothing transmitted, the second line
    included. *)
Theorem WriteRaw_long_line_unreported :
  let call :=
    WriteRaw (Double.client Double.accept 100) Double.long_text None [] in
  bufio.Scanner_tokens Double.long_text = []
  /\ call = (None, []).
Proof. vm_compute. split; reflexivity. Qed.

(** C5 on a first attempt answered 403 with code 4 (invalid token), the
    retry limit being 2: one attempt, no wait. *)
Lemma write_permanent_codes_witness :
  let hec := Double.client (Double.scripted [(403, StatusInvalidToken)]) 25 in
  write hec "/services/collector" [] []
  = (Some (ResponseError {| Text := ""; Code := StatusInvalidToken |}),
     [Do 0 (newRequest hec "/services/collector" [])]).
Proof.
  cbv zeta.
  refine (proj2 write_permanent_codes
            (Double.client (Double.scripted [(403, StatusInvalidToken)]) 25)
            "/services/collector"%string [] [] 403 ["004"%byte] _ _ _ _ _);
    try reflexivity; vm_compute; discriminate.
Defined.

(** C6 on a transport that answers 503 with code 9 twice and then 200, the
    retry limit being 2. *)
Lemma write_busy_twice_then_ok_witness :
  let hec :=
    Double.client
      (Double.scripted [(503, StatusServerBusy); (503, StatusServerBusy)])
      25 in
  let req := newRequest hec "/services/collector" [] in
  write hec "/services/collector" [] []
  = (None,
     [Do 0 req; Sleep retryWaitTime; Do 1 req; Sleep retryWaitTime;
      Do 2 req]).
Proof.
  cbv zeta.
  refine (proj1 (write_busy_twice_then_ok
                   (Double.client
                      (Double.scripted
                         [(503, StatusServerBusy); (503, StatusServerBusy)])
                      25)
                   "/services/collector"%string [] [] 503 503
                   ["009"%byte] ["009"%byte] [] _ _ _ _ _ _ _ _ _));
    try reflexivity; vm_compute; discriminate.
Defined.

(** The counter of [write] in a batch of two bodies, each answered with
    code 9 twice and then accepted, [hec.retries] being 2: both bodies go
    out, at the counters 0, 1, 2 and again 0, 1, 2. *)
Example WriteBatch_retries_each_body :
  let hec :=
    Double.client
      (Double.scripted
         [(503, StatusServerBusy); (503, StatusServerBusy); (200, 0);
          (503, StatusServerBusy); (503, StatusServerBusy)])
      25 in
  let events := [Double.event "event one"; Double.event "event two"] in
  let call := WriteBatch hec events [] in
  fst call = None
  /\ transmitted (snd call) = map json_Marshal events
  /\ map (fun a => match a with Do count _ => count | Sleep _ => -1 end)
       (snd call)
     = [0; -1; 1; -1; 2; 0; -1; 1; -1; 2].
Proof. vm_compute. repeat split. Qed.

(** C7 on a refused connection.  In the batch the first record is
    oversize and the second fits: the call returns the error of the
    transport, not the oversize list.  In raw mode the first of two bodies
    fails and the second is not sent. *)
Lemma fault_stops_the_call_witness :
  let hec := Double.client Double.refuse 25 in
  let events :=
    [Double.event "an event that is longer than 25 bytes";
     Double.event "event one"] in
  let body := json_Marshal (Double.event "event one") in
  WriteBatch hec events []
  = (Some (GoError "connection refused"),
     [Do 0 (newRequest hec "/services/collector?channel=channel" body)])
  /\ WriteRaw hec Double.text None []
     = (Some (GoError "connection refused"),
        [Do 0 (newRequest hec "/services/collector/raw?channel=channel"
                 (terminated Double.lineA))]).
Proof.
  cbv zeta. split.
  - refine (proj1 (proj1 (fault_stops_the_call
                            (Double.client Double.refuse 25))
                     [Double.event "an event that is longer than 25 bytes";
                      Double.event "event one"]
                     [] [] (json_Marshal (Double.event "event one"))
                     (GoError "connection refused") [] [] _ _ _ _));
      reflexivity.
  - refine (proj1 (proj2 (fault_stops_the_call
                            (Double.client Double.refuse 25))
                     Double.text None [] [terminated Double.lineB]
                     (terminated Double.lineA)
                     (GoError "connection refused") [] [] _ _ _ _));
      reflexivity.
Defined.

(** C8 on two empty records. *)
Lemma WriteBatch_all_empty_witness :
  let events := [Double.event ""; Double.event ""] in
  forallb empty events = true
  /\ WriteBatch (Double.client Double.accept 25) events [] = (None, []).
Proof.
  cbv zeta. split; [reflexivity|].
  apply (WriteBatch_all_empty (P := Double.platform)). reflexivity.
Defined.

(** C9 as stated fails on a line that ends in a carriage return and a
    line feed.  The body that goes out holds the two bytes before the
    carriage return and a line feed: it is no concatenation of lines of
    the input with their terminators, the one line of the input having
    three bytes.  With [maxLength = 2] this line of three bytes goes out
    all the same. *)
Lemma WriteRaw_sends_line_without_its_carriage_return :
  let hec := Double.client Double.accept 10 in
  let reader := list_byte_of_string "ab" ++ ["013"%byte; "010"%byte] in
  let acts := since [] (snd (WriteRaw hec reader None [])) in
  split_lines reader [] = [list_byte_of_string "ab" ++ ["013"%byte]]
  /\ attempts acts = [list_byte_of_string "ab" ++ ["010"%byte]]
  /\ ~ Forall (fun body =>
                 exists lines : list (list byte),
                   body = List.concat (map terminated lines)
                   /\ Forall (fun line =>
                                In line (split_lines reader [])
                                /\ len line <= maxLength hec) lines)
         (attempts acts)
  /\ In (list_byte_of_string "ab" ++ ["010"%byte])
       (attempts
          (snd (WriteRaw (Double.client Double.accept 2) reader None []))).
Proof.
  cbv zeta. split; [reflexivity|]. split; [reflexivity|].
  split; [|vm_compute; auto].
  change (attempts (since [] _))
    with [list_byte_of_string "ab" ++ ["010"%byte]].
  change (split_lines _ [])
    with [list_byte_of_string "ab" ++ ["013"%byte]].
  intros Hall. inversion Hall as [|body bodies (lines & Hbody & Hlines) _].
  destruct lines as [|line lines]; [discriminate Hbody|].
  inversion Hlines as [|? ? [[Hline|[]] _] _]. subst line.
  cbn in Hbody. discriminate Hbody.
Qed.

(** C9 (amended) on two lines of which the second has no terminator: what
    is transmitted is the input and one line feed. *)
Lemma WriteRaw_bodies_terminated_lines_witness :
  let hec := Double.client Double.accept 100 in
  List.concat
    (transmitted (since [] (snd (WriteRaw hec Double.text None []))))
  = Double.text ++ ["010"%byte].
Proof.
  cbv zeta.
  refine (proj1 (proj2 (proj2 (WriteRaw_bodies_terminated_lines
                                 (Double.client Double.accept 100)
                                 Double.text None [])))
            [Double.lineA] Double.lineB _ _ _ _ _ _).
  - reflexivity.
  - repeat constructor; discriminate.
  - repeat constructor; discriminate.
  - discriminate.
  - repeat constructor; vm_compute; discriminate.
  - vm_compute. discriminate.
Defined.

(** C10 at [maxLength = 20]: an empty event, an event of 24 encoded
    bytes, and one of 17. *)
Lemma WriteEvent_cases_witness :
  let hec := Double.client Double.accept 20 in
  WriteEvent hec (Double.event "") [] = (None, [])
  /\ WriteEvent hec (Double.event "hello, world") []
     = (Some (ErrEventTooLong []), [])
  /\ transmitted (since [] (snd (WriteEvent hec (Double.event "hello") [])))
     = [json_Marshal (Double.event "hello")].
Proof.
  cbv zeta. split; [|split].
  - apply (proj1 (WriteEvent_cases (P := Double.platform)
                    (Double.client Double.accept 20)
                    (Double.event "") [])).
    reflexivity.
  - apply (proj1 (proj2 (WriteEvent_cases (P := Double.platform)
                    (Double.client Double.accept 20)
                           (Double.event "hello, world") []))).
    + reflexivity.
    + reflexivity.
  - apply (proj2 (proj2 (WriteEvent_cases (P := Double.platform)
                    (Double.client Double.accept 20)
                           (Double.event "hello") []))).
    + reflexivity.
    + vm_compute. discriminate.
    + reflexivity.
Defined.

(** ** The further properties on the test double *)


(** Three records of which the second is empty and the first too long
    for [maxLength = 25]: what goes out is the third. *)
Lemma WriteBatch_keeps_order_witness :
  let hec := Double.client Double.accept 25 in
  let events :=
    [Double.event "an event that is longer than 25 bytes";
     Double.event ""; Double.event "event one"] in
  List.concat (transmitted (since [] (snd (WriteBatch hec events []))))
  = json_Marshal (Double.event "event one").
Proof.
  cbv zeta.
  refine (proj1 (WriteBatch_keeps_order (P := Double.platform)
                   (Double.client Double.accept 25)
                   [Double.event "an event that is longer than 25 bytes";
                    Double.event ""; Double.event "event one"] []) _).
  vm_compute. discriminate.
Defined.

(** Two records of 21 bytes with [maxLength = 50]: one body of 42. *)
Lemma WriteBatch_one_body_witness :
  let hec := Double.client Double.accept 50 in
  let events := [Double.event "event one"; Double.event "event two"] in
  transmitted (since [] (snd (WriteBatch hec events [])))
  = [json_Marshal (Double.event "event one")
       ++ json_Marshal (Double.event "event two")].
Proof.
  cbv zeta.
  refine (proj2 (proj2 (WriteBatch_one_body (P := Double.platform)
                          (Double.client Double.accept 50)
                          [Double.event "event one"; Double.event "event two"]
                          [] _)) _ _);
    vm_compute; try reflexivity; discriminate.
Defined.

(** A batch whose first record is too long returns a too-long error that
    names position 0. *)
Lemma too_long_indexes_witness :
  let hec := Double.client Double.accept 25 in
  let events :=
    [Double.event "an event that is longer than 25 bytes";
     Double.event "event one"] in
  fst (WriteBatch hec events []) = Some (ErrEventTooLong [0])
  /\ [0] <> [].
Proof.
  cbv zeta. split; [reflexivity|].
  refine (proj1 (proj2 (too_long_indexes (P := Double.platform)
                          (Double.client Double.accept 25) [] [0]))
            [Double.event "an event that is longer than 25 bytes";
             Double.event "event one"] _).
  reflexivity.
Defined.

(** Metadata of which no field is set adds nothing to the endpoint. *)
Lemma rawHecEndpoint_query_witness :
  exists query : string,
    rawHecEndpoint "channel" (Some Cases.unset)
    = (("/services/collector/raw?channel=" ++ "channel") ++ query)%string
    /\ query = ""%string.
Proof.
  destruct (rawHecEndpoint_query (P := Double.platform) "channel"
              (Some Cases.unset)) as (query & Hq & _ & Hnone).
  exists query. split; [exact Hq|]. apply Hnone. repeat split.
Defined.

(** Two lines of 14 bytes with [maxLength = 20]: no line has 20 bytes,
    and the two bodies have 15 bytes each. *)
Lemma WriteRaw_bodies_bound_witness :
  let hec := Double.client Double.accept 20 in
  Forall (fun body => 0 < len body <= 20)
    (attempts (since [] (snd (WriteRaw hec Double.text None [])))).
Proof.
  cbv zeta.
  refine (proj2 (WriteRaw_bodies_bound (P := Double.platform)
                   (Double.client Double.accept 20) Double.text None []) _).
  vm_compute. repeat constructor; discriminate.
Defined.

(** Two terminated lines of 14 bytes pass through unchanged. *)
Lemma WriteRaw_passes_terminated_input_witness :
  let hec := Double.client Double.accept 20 in
  let reader :=
    List.concat (map terminated [Double.lineA; Double.lineB]) in
  List.concat
    (transmitted (since [] (snd (WriteRaw hec reader (Some Cases.from_test)
                                   []))))
  = reader.
Proof.
  cbv zeta.
  refine (WriteRaw_passes_terminated_input (P := Double.platform)
            (Double.client Double.accept 20) [Double.lineA; Double.lineB]
            (Some Cases.from_test) [] _ _ _).
  - repeat constructor; discriminate.
  - repeat constructor; vm_compute; discriminate.
  - vm_compute. discriminate.
Defined.

(** The same two lines with the line endings of Windows go out with line
    feeds alone. *)
Lemma WriteRaw_drops_carriage_returns_witness :
  let hec := Double.client Double.accept 20 in
  let reader := Cases.crlf Double.lineA ++ Cases.crlf Double.lineB in
  List.concat (transmitted (since [] (snd (WriteRaw hec reader None []))))
  = terminated Double.lineA ++ terminated Double.lineB.
Proof.
  cbv zeta.
  refine (WriteRaw_drops_carriage_returns (P := Double.platform)
            (Double.client Double.accept 20) [Double.lineA; Double.lineB]
            None [] _ _ _).
  - repeat constructor; discriminate.
  - repeat constructor; vm_compute; discriminate.
  - vm_compute. discriminate.
Defined.

(** A run of 70000 bytes without a line feed after one good line: the
    call is the call on the good line, whatever follows the run. *)
Lemma WriteRaw_stops_at_long_line_witness :
  let hec := Double.client Double.accept 20 in
  WriteRaw hec
    (List.concat (map terminated [Double.lineA])
       ++ Cases.long_run ++ terminated Double.lineB) None []
  = WriteRaw hec (List.concat (map terminated [Double.lineA])) None [].
Proof.
  cbv zeta.
  refine (WriteRaw_stops_at_long_line (P := Double.platform)
            (Double.client Double.accept 20) [Double.lineA]
            Cases.long_run (terminated Double.lineB) None [] _ _ _).
  - repeat constructor; discriminate.
  - apply Forall_forall. intros b Hb.
    apply repeat_spec in Hb. subst b. discriminate.
  - unfold len, Cases.long_run. rewrite repeat_length. vm_compute.
    discriminate.
Defined.

(** One event, a batch of two and two lines, all fitting: the bounded
    client and the earlier one make the same call of [write]. *)
Lemma bounded_client_agrees_with_earlier_witness :
  let hec := Double.client Double.accept 50 in
  let events := [Double.event "event one"; Double.event "event two"] in
  let reader := List.concat (map terminated [Double.lineA; Double.lineB]) in
  WriteEvent hec (Double.event "event one") []
  = Earlier.WriteEvent hec (Double.event "event one") []
  /\ WriteBatch hec events [] = Earlier.WriteBatch hec events []
  /\ WriteRaw hec reader None [] = Earlier.WriteRaw hec reader None [].
Proof.
  cbv zeta.
  pose proof (bounded_client_agrees_with_earlier (P := Double.platform)
                (Double.client Double.accept 50) []) as (He & Hb & Hr).
  split; [|split].
  - apply He; [reflexivity|vm_compute; discriminate].
  - apply Hb; [reflexivity|]. vm_compute. split; [reflexivity|discriminate].
  - apply (Hr [Double.lineA; Double.lineB] None).
    + repeat constructor; discriminate.
    + vm_compute. split; [reflexivity|discriminate].
Defined.

(** The earlier client attempts a request for the empty batch; the
    bounded one does not. *)
Lemma Earlier_WriteBatch_one_write_witness :
  let hec := Double.client Double.accept 50 in
  attempts (since [] (snd (Earlier.WriteBatch hec [] []))) <> []
  /\ WriteBatch hec [] [] = (None, []).
Proof.
  cbv zeta.
  apply (proj2 (proj2 (Earlier_WriteBatch_one_write (P := Double.platform)
                         (Double.client Double.accept 50) [] []))).
  reflexivity.
Defined.

(** With three clients and the number 7, [pick] takes the second. *)
Lemma pick_one_of_the_clients_witness :
  let clients :=
    cluster.clients
      (cluster.NewCluster Double.accept ["a"; "b"; "c"]%string
         "token" "channel") in
  0 <= 7
  /\ cluster.pick 7 clients <> None
  /\ (forall client : Client,
         cluster.pick 7 clients = Some client -> In client clients).
Proof.
  cbv zeta. split; [discriminate|].
  destruct (pick_one_of_the_clients 7
              (cluster.clients
                 (cluster.NewCluster Double.accept ["a"; "b"; "c"]%string
                    "token" "channel"))) as [Hnone Hin]; [discriminate|].
  split; [|exact Hin]. intros Hpick. apply Hnone in Hpick. discriminate.
Defined.

(** A cluster of two URLs against a transport that is always busy: the
    call does not panic, and makes one attempt and no retry. *)
Lemma NewCluster_never_retries_witness :
  let urls := ["http://one:8088"; "http://two:8088"]%string in
  let c := cluster.NewCluster Cases.busy urls "token" "channel" in
  0 <= 3
  /\ match cluster.WriteEvent c 3 (Double.event "event one") [] with
     | None => urls = []
     | Some (_, w') =>
       exists serverURL : string,
         In serverURL urls
         /\ (w' = []
             \/ w' = [] ++ [Do 0 {| URL := (serverURL
                                             ++ "/services/collector?channel="
                                             ++ "channel")%string;
                                   Connection := Some "keep-alive"%string;
                                   Authorization :=
                                     ("Splunk " ++ "token")%string;
                                   Body :=
                                     json_Marshal
                                       (Double.event "event one") |}])
     end.
Proof.
  cbv zeta. split; [discriminate|].
  apply (NewCluster_never_retries (P := Double.platform)). discriminate.
Defined.

(** At the default [maxLength] a line of 70000 bytes is not reported. *)
Lemma WriteRaw_never_reports_beyond_the_buffer_witness :
  let hec := Double.client Double.accept defaultMaxContentLength in
  bufio.MaxScanTokenSize - 1 <= maxLength hec
  /\ fst (WriteRaw hec Double.long_text None [])
     <> Some (ErrEventTooLong [1]).
Proof.
  cbv zeta. split; [vm_compute; discriminate|].
  apply (WriteRaw_never_reports_beyond_the_buffer (P := Double.platform)).
  vm_compute. discriminate.
Defined.
